(** * Location resolution pipeline of ryoko-ai (src/utils/extractCoordinates.ts)

    Shallow embedding of the source matcher, the itinerary annotator, the URL
    coordinate extractor and the geocoding resolver.

    Strings are Stdlib [string]s, i.e. sequences of 8-bit characters; they
    stand for JavaScript strings whose UTF-16 code units are all below 256
    (Latin-1).  For such strings [length] is JavaScript's [.length]. *)

From Stdlib Require Import String Ascii List Bool Arith Lia ZArith QArith Qround.
Import ListNotations.
Open Scope string_scope.

(* ------------------------------------------------------------------ *)
(** ** JavaScript string primitives *)

Module JS.

Local Open Scope nat_scope.

Definition code (c : ascii) : nat := nat_of_ascii c.

(** [s.includes(t)] *)
Fixpoint includes (s t : string) : bool :=
  if String.prefix t s then true
  else match s with
       | EmptyString => false
       | String _ s' => includes s' t
       end.

(** [s.startsWith(t)] *)
Definition startsWith (s t : string) : bool := String.prefix t s.

(** [s.split(sep)] for a one-character separator. *)
Fixpoint split (sep : ascii) (s : string) : list string :=
  match s with
  | EmptyString => [EmptyString]
  | String c s' =>
      let rest := split sep s' in
      if Ascii.eqb c sep then EmptyString :: rest
      else match rest with
           | r :: rs => String c r :: rs
           | [] => [String c EmptyString]
           end
  end.

(** [s.replace(pat, rep)] with a string pattern: first occurrence only. *)
Fixpoint replace (pat rep s : string) : string :=
  if String.prefix pat s
  then rep ++ substring (String.length pat) (String.length s) s
  else match s with
       | EmptyString => s
       | String c s' => String c (replace pat rep s')
       end.

(** Truthiness of a [string | null] (or optional string) value. *)
Definition truthy (o : option string) : bool :=
  match o with
  | Some s => negb (String.eqb s "")
  | None => false
  end.

(** [a || b] on [string | null] values. *)
Definition or (a b : option string) : option string :=
  if truthy a then a else b.

(** [.toLowerCase()]; on Latin-1 only the letters A-Z and the letters
    0xC0-0xDE (but 0xD7) change. *)
Definition lower (c : ascii) : ascii :=
  let n := code c in
  if ((65 <=? n) && (n <=? 90)) || ((192 <=? n) && (n <=? 222) && negb (n =? 215))
  then ascii_of_nat (n + 32) else c.

Fixpoint toLowerCase (s : string) : string :=
  match s with
  | EmptyString => EmptyString
  | String c s' => String (lower c) (toLowerCase s')
  end.

(** Regex class [\w]: [A-Za-z0-9_]. *)
Definition is_word (c : ascii) : bool :=
  let n := code c in
  ((48 <=? n) && (n <=? 57)) || ((65 <=? n) && (n <=? 90))
  || ((97 <=? n) && (n <=? 122)) || (n =? 95).

(** Regex class [\s] restricted to Latin-1: tab, LF, VT, FF, CR, space, NBSP. *)
Definition is_space (c : ascii) : bool :=
  let n := code c in
  ((9 <=? n) && (n <=? 13)) || (n =? 32) || (n =? 160).

End JS.

(* ------------------------------------------------------------------ *)
(** ** normalizeString *)

(** [.replace(/[^\w\s]/g, '')] *)
Fixpoint removeSpecial (s : string) : string :=
  match s with
  | EmptyString => EmptyString
  | String c s' =>
      if JS.is_word c || JS.is_space c then String c (removeSpecial s')
      else removeSpecial s'
  end.

(** [.replace(/\s+/g, ' ')]: [in_ws] tells whether the previous character
    belonged to a whitespace run that has already produced its space. *)
Fixpoint collapseWs (in_ws : bool) (s : string) : string :=
  match s with
  | EmptyString => EmptyString
  | String c s' =>
      if JS.is_space c then
        if in_ws then collapseWs true s' else String " " (collapseWs true s')
      else String c (collapseWs false s')
  end.

Fixpoint trimStart (s : string) : string :=
  match s with
  | String c s' => if JS.is_space c then trimStart s' else s
  | EmptyString => EmptyString
  end.

Definition trimEnd (s : string) : string :=
  string_of_list_ascii (rev (list_ascii_of_string
    (trimStart (string_of_list_ascii (rev (list_ascii_of_string s)))))).

(** [.trim()] *)
Definition trim (s : string) : string := trimEnd (trimStart s).

Definition normalizeString (str : string) : string :=
  trim (collapseWs false (removeSpecial (JS.toLowerCase str))).

(** The normal form of [normalizeString]'s output: lower-case word
    characters [[a-z0-9_]] in words separated by single spaces, with no
    space at either end. *)
Definition lowerWord (c : ascii) : bool :=
  JS.is_word c && negb ((65 <=? JS.code c) && (JS.code c <=? 90))%nat.

(** After a word character: more word characters, or one space followed by
    a word character. *)
Fixpoint afterWord (s : string) : bool :=
  match s with
  | EmptyString => true
  | String c s' =>
      if Ascii.eqb c " " then
        match s' with
        | String d s'' => lowerWord d && afterWord s''
        | EmptyString => false
        end
      else lowerWord c && afterWord s'
  end.

Definition isNormal (s : string) : bool :=
  match s with
  | EmptyString => true
  | String c s' => lowerWord c && afterWord s'
  end.

(* ------------------------------------------------------------------ *)
(** ** Data model (src/types.ts) *)

(** A [GroundingChunk]: an optional [web] payload and an optional [maps]
    payload, as in the TypeScript interface. *)
Module GroundingChunk.
Record web_payload := { web_uri : string; web_title : string }.
Record snippet := { snippet_uri : string; snippet_title : string }.
Record maps_payload := {
  uri : string;
  title : string;
  placeAnswerSources : option (list snippet) }.
Record t := { web : option web_payload; maps : option maps_payload }.
End GroundingChunk.

Module HiddenGem.
Record t := {
  name : string;
  location : string;
  description : string;
  googleMapsLink : option string;   (* [string | null] *)
  locationUri : option string }.    (* optional *)
End HiddenGem.

Module ItineraryItem.
Record t := {
  time : string;
  activity : string;
  location : string;
  description : string;
  googleMapsLink : option string;   (* [string | null] *)
  locationUri : option string;      (* optional *)
  hiddenGem : option HiddenGem.t }. (* optional *)
End ItineraryItem.

Module DailyPlan.
Record t := { day : string; title : string; items : list ItineraryItem.t }.
End DailyPlan.

Module Hotel.
Record t := {
  name : string;
  description : string;
  location : string;
  googleMapsLink : option string }.
End Hotel.

Module Itinerary.
Record t := {
  tripTitle : string;
  vibeCheck : string;
  packingList : list string;
  recommendedHotels : list Hotel.t;
  dailyItinerary : list DailyPlan.t }.
End Itinerary.

(* ------------------------------------------------------------------ *)
(** ** Source matcher *)

(** [isSimilarMatch]; [minLength / maxLength >= 0.6] is compared exactly
    as rationals. *)
Definition isSimilarMatch (str1 str2 : string) : bool :=
  let normalized1 := normalizeString str1 in
  let normalized2 := normalizeString str2 in
  if String.eqb normalized1 normalized2 then true
  else if JS.includes normalized1 normalized2 || JS.includes normalized2 normalized1 then
    let minLength := Nat.min (String.length normalized1) (String.length normalized2) in
    let maxLength := Nat.max (String.length normalized1) (String.length normalized2) in
    Qle_bool (6 # 10) (Z.of_nat minLength # Pos.of_nat maxLength)
  else false.

Definition genericKeywords : list string :=
  ["near"; "around"; "in"; "at"; "explore"; "dinner"; "lunch"; "breakfast";
   "depart"; "transit"; "airport"].

(** [source.maps?.title] is truthy: the title of the maps payload. *)
Definition mapsTitle (source : GroundingChunk.t) : option (GroundingChunk.maps_payload) :=
  match GroundingChunk.maps source with
  | Some m => if String.eqb (GroundingChunk.title m) "" then None else Some m
  | None => None
  end.

(** Pass 1 of [findMatchingUri]: the first source whose maps title is
    similar to the place name. *)
Fixpoint firstSimilar (placeName : string) (sources : list GroundingChunk.t) : option string :=
  match sources with
  | [] => None
  | source :: rest =>
      match mapsTitle source with
      | Some m =>
          if isSimilarMatch placeName (GroundingChunk.title m)
          then Some (GroundingChunk.uri m)
          else firstSimilar placeName rest
      | None => firstSimilar placeName rest
      end
  end.

(** [matchingWords.length / placeWords.length] *)
Definition wordScore (placeWords : list string) (sourceTitle : string) : Q :=
  let matchingWords := filter (fun word => JS.includes sourceTitle word) placeWords in
  Z.of_nat (List.length matchingWords) # Pos.of_nat (List.length placeWords).

(** Pass 2 of [findMatchingUri]: the loop updating [bestMatch]. *)
Fixpoint bestLoop (placeWords : list string) (bestMatch : option (GroundingChunk.maps_payload * Q))
  (sources : list GroundingChunk.t) : option (GroundingChunk.maps_payload * Q) :=
  match sources with
  | [] => bestMatch
  | source :: rest =>
      match mapsTitle source with
      | Some m =>
          let sourceTitle := normalizeString (GroundingChunk.title m) in
          let score := wordScore placeWords sourceTitle in
          let better := match bestMatch with
                        | None => true
                        | Some (_, best) => negb (Qle_bool score best)
                        end in
          if Qle_bool (1 # 2) score && better
          then bestLoop placeWords (Some (m, score)) rest
          else bestLoop placeWords bestMatch rest
      | None => bestLoop placeWords bestMatch rest
      end
  end.

Definition isGeneric (normalizedPlace : string) : bool :=
  existsb (fun keyword => JS.includes normalizedPlace keyword) genericKeywords
  && (List.length (JS.split " " normalizedPlace) <=? 4)%nat.

Definition placeWordsOf (normalizedPlace : string) : list string :=
  filter (fun w => 2 <? String.length w)%nat (JS.split " " normalizedPlace).

(** [findMatchingUri] *)
Definition findMatchingUri (placeName : string) (sources : list GroundingChunk.t) : option string :=
  let normalizedPlace := normalizeString placeName in
  if isGeneric normalizedPlace then None
  else match firstSimilar placeName sources with
       | Some u => Some u
       | None =>
           match placeWordsOf normalizedPlace with
           | [] => None
           | placeWords =>
               match bestLoop placeWords None sources with
               | Some (m, _) => Some (GroundingChunk.uri m)
               | None => None
               end
           end
       end.

(* ------------------------------------------------------------------ *)
(** ** Neighborhood links *)

Definition hexDigit (n : nat) : ascii :=
  if (n <? 10)%nat then ascii_of_nat (48 + n) else ascii_of_nat (55 + n).

(** ["%XX"] for one byte, upper-case hex. *)
Definition pctByte (b : nat) : string :=
  String "%" (String (hexDigit (b / 16)) (String (hexDigit (b mod 16)) EmptyString)).

(** Characters [encodeURIComponent] leaves alone:
    [A-Z a-z 0-9 - _ . ! ~ * ' ( )]. *)
Definition uriUnreserved (c : ascii) : bool :=
  let n := JS.code c in
  ((48 <=? n) && (n <=? 57))%nat || ((65 <=? n) && (n <=? 90))%nat
  || ((97 <=? n) && (n <=? 122))%nat
  || existsb (Nat.eqb n) [45; 95; 46; 33; 126; 42; 39; 40; 41]%nat.

(** [encodeURIComponent]: other characters become the percent escapes of
    their UTF-8 bytes (one byte below 0x80, two bytes from 0x80 to 0xFF). *)
Fixpoint encodeURIComponent (s : string) : string :=
  match s with
  | EmptyString => EmptyString
  | String c s' =>
      let n := JS.code c in
      (if uriUnreserved c then String c EmptyString
       else if (n <? 128)%nat then pctByte n
       else pctByte (192 + n / 64) ++ pctByte (128 + n mod 64))
      ++ encodeURIComponent s'
  end.

Definition mapsSearchPrefix : string := "https://www.google.com/maps/search/?api=1&query=".

(** [generateNeighborhoodMapsUrl] *)
Definition generateNeighborhoodMapsUrl (location : string) : string :=
  let encodedLocation := encodeURIComponent location in
  mapsSearchPrefix ++ encodedLocation.

Definition isNeighborhoodTitle (sourceTitle : string) : bool :=
  negb (JS.includes sourceTitle "restaurant") &&
  negb (JS.includes sourceTitle "hotel") &&
  negb (JS.includes sourceTitle "cafe") &&
  negb (JS.includes sourceTitle "store") &&
  negb (JS.includes sourceTitle "museum").

(** The loop of [findNeighborhoodUri]. *)
Fixpoint neighborhoodLoop (normalizedLocation : string) (sources : list GroundingChunk.t)
  : option string :=
  match sources with
  | [] => None
  | source :: rest =>
      match mapsTitle source with
      | Some m =>
          let sourceTitle := normalizeString (GroundingChunk.title m) in
          if (String.eqb sourceTitle normalizedLocation
              || JS.includes sourceTitle normalizedLocation
              || JS.includes normalizedLocation sourceTitle)
             && isNeighborhoodTitle sourceTitle
          then Some (GroundingChunk.uri m)
          else neighborhoodLoop normalizedLocation rest
      | None => neighborhoodLoop normalizedLocation rest
      end
  end.

(** [findNeighborhoodUri] *)
Definition findNeighborhoodUri (location : string) (sources : list GroundingChunk.t) : string :=
  let normalizedLocation := normalizeString location in
  match neighborhoodLoop normalizedLocation sources with
  | Some u => u
  | None => generateNeighborhoodMapsUrl location
  end.

(* ------------------------------------------------------------------ *)
(** ** Itinerary annotator: [matchSourcesToItinerary]

    The deep copy [JSON.parse(JSON.stringify(itinerary))] is the identity on
    this model (all fields are strings, lists, records, [null] or absent). *)

Definition matchHotel (sources : list GroundingChunk.t) (hotel : Hotel.t) : Hotel.t :=
  if negb (JS.truthy (Hotel.googleMapsLink hotel)) then
    let uri := findMatchingUri (Hotel.name hotel) sources in
    {| Hotel.name := Hotel.name hotel;
       Hotel.description := Hotel.description hotel;
       Hotel.location := Hotel.location hotel;
       Hotel.googleMapsLink := uri |}
  else hotel.

Definition setGem (g : HiddenGem.t) (link loc : option string) : HiddenGem.t :=
  {| HiddenGem.name := HiddenGem.name g;
     HiddenGem.location := HiddenGem.location g;
     HiddenGem.description := HiddenGem.description g;
     HiddenGem.googleMapsLink := link;
     HiddenGem.locationUri := loc |}.

Definition matchGem (sources : list GroundingChunk.t) (hiddenGem : HiddenGem.t) : HiddenGem.t :=
  let link := JS.or (HiddenGem.googleMapsLink hiddenGem) None in
  if JS.truthy (HiddenGem.locationUri hiddenGem) then
    setGem hiddenGem link (HiddenGem.locationUri hiddenGem)
  else if negb (JS.truthy (HiddenGem.googleMapsLink hiddenGem)) then
    let hiddenGemUri := findMatchingUri (HiddenGem.name hiddenGem) sources in
    let hiddenGemLocationUri := findNeighborhoodUri (HiddenGem.location hiddenGem) sources in
    setGem hiddenGem (JS.or hiddenGemUri None)
      (if JS.truthy (Some hiddenGemLocationUri) then Some hiddenGemLocationUri
       else HiddenGem.locationUri hiddenGem)
  else setGem hiddenGem link (HiddenGem.locationUri hiddenGem).

Definition matchItem (sources : list GroundingChunk.t) (item : ItineraryItem.t) : ItineraryItem.t :=
  let activityUri := JS.or (ItineraryItem.googleMapsLink item)
                           (findMatchingUri (ItineraryItem.activity item) sources) in
  let locationUri := findNeighborhoodUri (ItineraryItem.location item) sources in
  let hiddenGem := option_map (matchGem sources) (ItineraryItem.hiddenGem item) in
  {| ItineraryItem.time := ItineraryItem.time item;
     ItineraryItem.activity := ItineraryItem.activity item;
     ItineraryItem.location := ItineraryItem.location item;
     ItineraryItem.description := ItineraryItem.description item;
     ItineraryItem.googleMapsLink := JS.or activityUri None;
     ItineraryItem.locationUri :=
       if JS.truthy (Some locationUri) then Some locationUri
       else ItineraryItem.locationUri item;
     ItineraryItem.hiddenGem := hiddenGem |}.

Definition matchDay (sources : list GroundingChunk.t) (day : DailyPlan.t) : DailyPlan.t :=
  {| DailyPlan.day := DailyPlan.day day;
     DailyPlan.title := DailyPlan.title day;
     DailyPlan.items := map (matchItem sources) (DailyPlan.items day) |}.

Definition matchSourcesToItinerary (itinerary : Itinerary.t) (sources : list GroundingChunk.t)
  : Itinerary.t :=
  {| Itinerary.tripTitle := Itinerary.tripTitle itinerary;
     Itinerary.vibeCheck := Itinerary.vibeCheck itinerary;
     Itinerary.packingList := Itinerary.packingList itinerary;
     Itinerary.recommendedHotels := map (matchHotel sources) (Itinerary.recommendedHotels itinerary);
     Itinerary.dailyItinerary := map (matchDay sources) (Itinerary.dailyItinerary itinerary) |}.

(* ------------------------------------------------------------------ *)
(** ** URL coordinate extractor: [extractCoordinatesFromUrl] *)

Module Regex.

(** Regex class [[-\d.]]. *)
Definition numChar (c : ascii) : bool :=
  let n := JS.code c in ((48 <=? n) && (n <=? 57))%nat || (n =? 45)%nat || (n =? 46)%nat.

(** Greedy [p*]: the longest prefix of characters satisfying [p] and the rest. *)
Fixpoint span (p : ascii -> bool) (s : string) : string * string :=
  match s with
  | String c s' => if p c then let (a, b) := span p s' in (String c a, b) else (EmptyString, s)
  | EmptyString => (EmptyString, EmptyString)
  end.

(** Greedy [p+]: the maximal non-empty run. As no pattern below can continue
    with a character of the class just consumed, backtracking into a
    shorter run never yields a match, so the maximal run is the only one. *)
Definition plus (p : ascii -> bool) (s : string) : option (string * string) :=
  let (a, b) := span p s in
  match a with EmptyString => None | _ => Some (a, b) end.

(** Literal prefix. *)
Definition lit (l s : string) : option string :=
  if String.prefix l s then Some (substring (String.length l) (String.length s) s) else None.

(** [[?&]] *)
Definition qa (s : string) : option string :=
  match s with
  | String c s' => if Ascii.eqb c "?" || Ascii.eqb c "&" then Some s' else None
  | EmptyString => None
  end.

Definition bind {A B} (o : option A) (f : A -> option B) : option B :=
  match o with Some a => f a | None => None end.

(** [([-\d.]+),([-\d.]+)] followed by the rest. *)
Definition pair (s : string) : option (string * string * string) :=
  bind (plus numChar s) (fun '(g1, r1) =>
  bind (lit "," r1) (fun r2 =>
  bind (plus numChar r2) (fun '(g2, r3) => Some (g1, g2, r3)))).

Definition notAmp (c : ascii) : bool := negb (Ascii.eqb c "&").
Definition notSlashAt (c : ascii) : bool := negb (Ascii.eqb c "/" || Ascii.eqb c "@").

(** A non-global [url.match(re)]: the match starting at the leftmost
    position where the pattern matches. *)
Fixpoint search {A} (at_ : string -> option A) (s : string) : option A :=
  match at_ s with
  | Some a => Some a
  | None => match s with EmptyString => None | String _ s' => search at_ s' end
  end.

(** [/@([-\d.]+),([-\d.]+)(?:,(\d+))?/]; the optional zoom group is unused. *)
Definition atCoords (s : string) : option (string * string) :=
  bind (lit "@" s) (fun r => bind (pair r) (fun '(g1, g2, _) => Some (g1, g2))).

(** [/[?&]q=([-\d.]+),([-\d.]+)(?:&|$)/] *)
Definition qNumeric (s : string) : option (string * string) :=
  bind (qa s) (fun r => bind (lit "q=" r) (fun r' => bind (pair r') (fun '(g1, g2, r3) =>
    match r3 with
    | EmptyString => Some (g1, g2)
    | String c _ => if Ascii.eqb c "&" then Some (g1, g2) else None
    end))).

(** [/[?&]ll=([-\d.]+),([-\d.]+)/] *)
Definition llCoords (s : string) : option (string * string) :=
  bind (qa s) (fun r => bind (lit "ll=" r) (fun r' =>
    bind (pair r') (fun '(g1, g2, _) => Some (g1, g2)))).

(** [/center=([-\d.]+),([-\d.]+)/] *)
Definition centerCoords (s : string) : option (string * string) :=
  bind (lit "center=" s) (fun r' => bind (pair r') (fun '(g1, g2, _) => Some (g1, g2))).

(** [/[?&]cid=([^&]+)/] *)
Definition cidParam (s : string) : option string :=
  bind (qa s) (fun r => bind (lit "cid=" r) (fun r' =>
    bind (plus notAmp r') (fun '(g, _) => Some g))).

(** [/place_id=([^&]+)/] *)
Definition placeIdParam (s : string) : option string :=
  bind (lit "place_id=" s) (fun r' => bind (plus notAmp r') (fun '(g, _) => Some g)).

(** [/[?&]query=([^&]+)/] *)
Definition queryParam (s : string) : option string :=
  bind (qa s) (fun r => bind (lit "query=" r) (fun r' =>
    bind (plus notAmp r') (fun '(g, _) => Some g))).

(** [/\/place\/[^/@]+@([-\d.]+),([-\d.]+)/] *)
Definition placePath (s : string) : option (string * string) :=
  bind (lit "/place/" s) (fun r => bind (plus notSlashAt r) (fun '(_, r1) =>
  bind (lit "@" r1) (fun r2 => bind (pair r2) (fun '(g1, g2, _) => Some (g1, g2))))).

End Regex.

(** [parseFloat] on a string: the longest prefix of the form
    [[+-]? digits [. digits]] with at least one digit, as an exact rational
    ([None] is [NaN]).  Rounding to the nearest double is not modelled. *)
Fixpoint digitsVal (acc : Z) (k : nat) (s : string) : Z * nat * string :=
  match s with
  | String c s' =>
      let n := JS.code c in
      if ((48 <=? n) && (n <=? 57))%nat
      then digitsVal (acc * 10 + Z.of_nat (n - 48))%Z (S k) s'
      else (acc, k, s)
  | EmptyString => (acc, k, s)
  end.

Definition parseFloat (s : string) : option Q :=
  let '(sign, s1) :=
    match s with
    | String c s' => if Ascii.eqb c "-" then ((-1)%Z, s')
                     else if Ascii.eqb c "+" then (1%Z, s') else (1%Z, s)
    | EmptyString => (1%Z, s)
    end in
  let '(ip, ki, s2) := digitsVal 0 0 s1 in
  let '(v, kf) :=
    match s2 with
    | String c s3 =>
        if Ascii.eqb c "." then let '(v, kf, _) := digitsVal ip 0 s3 in (v, kf)
        else (ip, 0%nat)
    | EmptyString => (ip, 0%nat)
    end in
  if ((ki + kf) =? 0)%nat then None
  else Some ((sign * v)%Z # Pos.of_nat (10 ^ kf)).

Module CoordinateResult.
Record t := {
  coordinates : option (Q * Q);
  needsGeocoding : bool;
  geocodingQuery : option string;
  placeId : option string;
  cid : option string }.
End CoordinateResult.

Definition noResult : CoordinateResult.t :=
  {| CoordinateResult.coordinates := None; CoordinateResult.needsGeocoding := false;
     CoordinateResult.geocodingQuery := None; CoordinateResult.placeId := None;
     CoordinateResult.cid := None |}.

Definition direct (c : Q * Q) : CoordinateResult.t :=
  {| CoordinateResult.coordinates := Some c; CoordinateResult.needsGeocoding := false;
     CoordinateResult.geocodingQuery := None; CoordinateResult.placeId := None;
     CoordinateResult.cid := None |}.

Definition validLatLng (lat lng : Q) : bool :=
  Qle_bool (-90) lat && Qle_bool lat 90 && Qle_bool (-180) lng && Qle_bool lng 180.

(** One coordinate format: the two captures parse and are in range. *)
Definition tryCoords (m : option (string * string)) : option (Q * Q) :=
  match m with
  | Some (s1, s2) =>
      match parseFloat s1, parseFloat s2 with
      | Some lat, Some lng => if validLatLng lat lng then Some (lat, lng) else None
      | _, _ => None
      end
  | None => None
  end.

Section Extract.

(** [decodeURIComponent]: [None] when it throws a [URIError]; the
    exception is caught by the [try] and ends in the final [return]. *)
Variable decodeURIComponent : string -> option string.

Definition extractCoordinatesFromUrl (url : string) : CoordinateResult.t :=
  if String.eqb url "" then noResult else
  match tryCoords (Regex.search Regex.atCoords url) with Some c => direct c | None =>
  match tryCoords (Regex.search Regex.qNumeric url) with Some c => direct c | None =>
  match tryCoords (Regex.search Regex.llCoords url) with Some c => direct c | None =>
  match tryCoords (Regex.search Regex.centerCoords url) with Some c => direct c | None =>
  match Regex.search Regex.cidParam url with
  | Some g =>
      match decodeURIComponent g with
      | Some cid =>
          {| CoordinateResult.coordinates := None; CoordinateResult.needsGeocoding := true;
             CoordinateResult.geocodingQuery := Some ("cid:" ++ cid);
             CoordinateResult.placeId := None; CoordinateResult.cid := Some cid |}
      | None => noResult
      end
  | None =>
  match Regex.search Regex.placeIdParam url with
  | Some g =>
      match decodeURIComponent g with
      | Some placeId =>
          {| CoordinateResult.coordinates := None; CoordinateResult.needsGeocoding := true;
             CoordinateResult.geocodingQuery := Some placeId;
             CoordinateResult.placeId := Some placeId; CoordinateResult.cid := None |}
      | None => noResult
      end
  | None =>
  match Regex.search Regex.queryParam url with
  | Some g =>
      match decodeURIComponent g with
      | Some query =>
          {| CoordinateResult.coordinates := None; CoordinateResult.needsGeocoding := true;
             CoordinateResult.geocodingQuery := Some query;
             CoordinateResult.placeId := None; CoordinateResult.cid := None |}
      | None => noResult
      end
  | None =>
  match tryCoords (Regex.search Regex.placePath url) with Some c => direct c | None =>
  noResult
  end end end end end end end end.

End Extract.

(** [decodeURIComponent] on strings whose percent escapes all encode ASCII
    bytes; escapes of bytes from 0x80 on (multi-byte UTF-8) and malformed
    escapes give [None].  On inputs without such escapes it agrees with the
    JavaScript function; it is the decoder used in the concrete examples. *)
Definition hexVal (c : ascii) : option nat :=
  let n := JS.code c in
  if ((48 <=? n) && (n <=? 57))%nat then Some (n - 48)%nat
  else if ((65 <=? n) && (n <=? 70))%nat then Some (n - 55)%nat
  else if ((97 <=? n) && (n <=? 102))%nat then Some (n - 87)%nat
  else None.

Fixpoint decodeAscii (s : string) : option string :=
  match s with
  | EmptyString => Some EmptyString
  | String c s' =>
      if Ascii.eqb c "%" then
        match s' with
        | String h1 (String h2 r) =>
            match hexVal h1, hexVal h2 with
            | Some a, Some b =>
                if (a * 16 + b <? 128)%nat
                then option_map (String (ascii_of_nat (a * 16 + b))) (decodeAscii r)
                else None
            | _, _ => None
            end
        | _ => None
        end
      else option_map (String c) (decodeAscii s')
  end.

(* ------------------------------------------------------------------ *)
(** ** Geocoding resolver: [geocodeQuery]

    The Google Maps geocoder is an external service: a request is either by
    address or by place id, and the callback receives coordinates when the
    status is [OK] with a first result, [null] otherwise.  The resolver
    returns the list of requests it issued together with its result;
    [mapsLoaded] is false when loading the API failed or [window.google.maps]
    is missing. *)

Inductive GeocodeRequest :=
| ByAddress (address : string)
| ByPlaceId (placeId : string).

Definition Geocoder := GeocodeRequest -> option (Q * Q).

Definition geocodeOnce (geocoder : Geocoder) (req : GeocodeRequest)
  : list GeocodeRequest * option (Q * Q) :=
  ([req], geocoder req).

Definition geocodeQuery (mapsLoaded : bool) (geocoder : Geocoder)
  (query : string) (placeName : option string) : list GeocodeRequest * option (Q * Q) :=
  if negb mapsLoaded then ([], None)
  else if JS.startsWith query "cid:" then
    let nameToGeocode :=
      match JS.or placeName None with
      | Some n => n
      | None => JS.replace "cid:" "" query
      end in
    geocodeOnce geocoder (ByAddress nameToGeocode)
  else if JS.startsWith query "ChIJ" then
    geocodeOnce geocoder (ByPlaceId query)
  else geocodeOnce geocoder (ByAddress query).

(* ------------------------------------------------------------------ *)
(** ** Auxiliary definitions used in the statements *)

(** Coordinates from the first of the four coordinate formats tried first
    ([@], [q=], [ll=], [center=]) that yields an in-range pair. *)
Definition firstCoords (url : string) : option (Q * Q) :=
  match tryCoords (Regex.search Regex.atCoords url) with Some c => Some c | None =>
  match tryCoords (Regex.search Regex.qNumeric url) with Some c => Some c | None =>
  match tryCoords (Regex.search Regex.llCoords url) with Some c => Some c | None =>
  tryCoords (Regex.search Regex.centerCoords url) end end end.

Definition geocodeFor (placeId : string) : CoordinateResult.t :=
  {| CoordinateResult.coordinates := None; CoordinateResult.needsGeocoding := true;
     CoordinateResult.geocodingQuery := Some placeId;
     CoordinateResult.placeId := Some placeId; CoordinateResult.cid := None |}.

(** A link field that holds a non-empty string keeps it. *)
Definition keeps (old new : option string) : Prop := JS.truthy old = true -> new = old.

Definition option_rel {A B} (R : A -> B -> Prop) (o : option A) (o' : option B) : Prop :=
  match o, o' with
  | None, None => True
  | Some a, Some b => R a b
  | _, _ => False
  end.

Definition hotel_rel (h h' : Hotel.t) : Prop :=
  Hotel.name h' = Hotel.name h /\ Hotel.description h' = Hotel.description h /\
  Hotel.location h' = Hotel.location h /\
  keeps (Hotel.googleMapsLink h) (Hotel.googleMapsLink h').

Definition gem_rel (g g' : HiddenGem.t) : Prop :=
  HiddenGem.name g' = HiddenGem.name g /\ HiddenGem.location g' = HiddenGem.location g /\
  HiddenGem.description g' = HiddenGem.description g /\
  keeps (HiddenGem.googleMapsLink g) (HiddenGem.googleMapsLink g') /\
  keeps (HiddenGem.locationUri g) (HiddenGem.locationUri g').

Definition item_rel (i i' : ItineraryItem.t) : Prop :=
  ItineraryItem.time i' = ItineraryItem.time i /\
  ItineraryItem.activity i' = ItineraryItem.activity i /\
  ItineraryItem.location i' = ItineraryItem.location i /\
  ItineraryItem.description i' = ItineraryItem.description i /\
  keeps (ItineraryItem.googleMapsLink i) (ItineraryItem.googleMapsLink i') /\
  option_rel gem_rel (ItineraryItem.hiddenGem i) (ItineraryItem.hiddenGem i').

Definition day_rel (d d' : DailyPlan.t) : Prop :=
  DailyPlan.day d' = DailyPlan.day d /\ DailyPlan.title d' = DailyPlan.title d /\
  Forall2 item_rel (DailyPlan.items d) (DailyPlan.items d').

(** Same shape, same non-link fields, non-empty map-links kept. *)
Definition itinerary_rel (it it' : Itinerary.t) : Prop :=
  Itinerary.tripTitle it' = Itinerary.tripTitle it /\
  Itinerary.vibeCheck it' = Itinerary.vibeCheck it /\
  Itinerary.packingList it' = Itinerary.packingList it /\
  Forall2 hotel_rel (Itinerary.recommendedHotels it) (Itinerary.recommendedHotels it') /\
  Forall2 day_rel (Itinerary.dailyItinerary it) (Itinerary.dailyItinerary it').

(** A missing map-link (null or the empty string) becomes null or the uri
    of the maps payload of a citation. *)
Definition fills (sources : list GroundingChunk.t) (old new : option string) : Prop :=
  JS.truthy old = false ->
  new = None \/
  exists c m, In c sources /\ GroundingChunk.maps c = Some m /\ new = Some (GroundingChunk.uri m).

(** [fills] for every map-link of a hotel, an item and a hidden gem. *)
Definition itinerary_fills (sources : list GroundingChunk.t) (it it' : Itinerary.t) : Prop :=
  Forall2 (fun h h' => fills sources (Hotel.googleMapsLink h) (Hotel.googleMapsLink h'))
    (Itinerary.recommendedHotels it) (Itinerary.recommendedHotels it') /\
  Forall2 (fun d d' =>
    Forall2 (fun i i' =>
      fills sources (ItineraryItem.googleMapsLink i) (ItineraryItem.googleMapsLink i') /\
      option_rel (fun g g' => fills sources (HiddenGem.googleMapsLink g) (HiddenGem.googleMapsLink g'))
        (ItineraryItem.hiddenGem i) (ItineraryItem.hiddenGem i'))
      (DailyPlan.items d) (DailyPlan.items d'))
    (Itinerary.dailyItinerary it) (Itinerary.dailyItinerary it').

Definition allItems (it : Itinerary.t) : list ItineraryItem.t :=
  flat_map DailyPlan.items (Itinerary.dailyItinerary it).

(** What annotation does to neighborhood links. *)
Definition gem_nb (sources : list GroundingChunk.t) (g g' : HiddenGem.t) : Prop :=
  (JS.truthy (HiddenGem.locationUri g) = true ->
     HiddenGem.locationUri g' = HiddenGem.locationUri g) /\
  (JS.truthy (HiddenGem.locationUri g) = false ->
   JS.truthy (HiddenGem.googleMapsLink g) = false ->
     HiddenGem.locationUri g' = Some (findNeighborhoodUri (HiddenGem.location g) sources)) /\
  (JS.truthy (HiddenGem.locationUri g) = false ->
   JS.truthy (HiddenGem.googleMapsLink g) = true ->
     HiddenGem.locationUri g' = HiddenGem.locationUri g).

Definition item_nb (sources : list GroundingChunk.t) (i i' : ItineraryItem.t) : Prop :=
  (exists u, ItineraryItem.locationUri i' = Some u /\ u <> "") /\
  (JS.truthy (ItineraryItem.locationUri i) = false ->
     ItineraryItem.locationUri i' =
       Some (findNeighborhoodUri (ItineraryItem.location i) sources)) /\
  option_rel (gem_nb sources) (ItineraryItem.hiddenGem i) (ItineraryItem.hiddenGem i').

Definition hasMaps (c : GroundingChunk.t) : bool :=
  match GroundingChunk.maps c with Some _ => true | None => false end.

(** Score of a citation in the fallback pass, when it has a maps title. *)
Definition scoreOf (placeWords : list string) (c : GroundingChunk.t) : option Q :=
  option_map (fun m => wordScore placeWords (normalizeString (GroundingChunk.title m)))
    (mapsTitle c).

(** The current best match, if any, scores below [s]. *)
Definition below (s : Q) (b : option (GroundingChunk.maps_payload * Q)) : Prop :=
  match b with None => True | Some (_, x) => (x < s)%Q end.

(** All map-links and neighborhood-links of an itinerary are non-null. *)
Definition fullyPopulated (it : Itinerary.t) : bool :=
  forallb (fun h => match Hotel.googleMapsLink h with Some _ => true | None => false end)
    (Itinerary.recommendedHotels it) &&
  forallb (fun i =>
    match ItineraryItem.googleMapsLink i, ItineraryItem.locationUri i with
    | Some _, Some _ => true | _, _ => false end &&
    match ItineraryItem.hiddenGem i with
    | Some g => match HiddenGem.googleMapsLink g, HiddenGem.locationUri g with
                | Some _, Some _ => true | _, _ => false end
    | None => true
    end) (allItems it).

(* ------------------------------------------------------------------ *)
(** ** Concrete inputs *)

Definition mapsChunk (t u : string) : GroundingChunk.t :=
  {| GroundingChunk.web := None;
     GroundingChunk.maps := Some {| GroundingChunk.uri := u; GroundingChunk.title := t;
                                    GroundingChunk.placeAnswerSources := None |} |}.

Definition webChunk (t u : string) : GroundingChunk.t :=
  {| GroundingChunk.web := Some {| GroundingChunk.web_uri := u; GroundingChunk.web_title := t |};
     GroundingChunk.maps := None |}.

Definition parkHyatt : Hotel.t :=
  {| Hotel.name := "Park Hyatt Tokyo"; Hotel.description := "Luxury hotel";
     Hotel.location := "Shinjuku"; Hotel.googleMapsLink := None |}.

Definition parkHyattCitation : GroundingChunk.t :=
  mapsChunk "Park Hyatt Tokyo" "https://maps.google.com/?cid=123".

Definition tokyoTrip (hotels : list Hotel.t) (days : list DailyPlan.t) : Itinerary.t :=
  {| Itinerary.tripTitle := "Tokyo"; Itinerary.vibeCheck := "Calm";
     Itinerary.packingList := ["Umbrella"]; Itinerary.recommendedHotels := hotels;
     Itinerary.dailyItinerary := days |}.

Definition oneDay (items : list ItineraryItem.t) : DailyPlan.t :=
  {| DailyPlan.day := "Day 1"; DailyPlan.title := "Arrival"; DailyPlan.items := items |}.

Definition crossingItem (link loc : option string) (gem : option HiddenGem.t) : ItineraryItem.t :=
  {| ItineraryItem.time := "10:00"; ItineraryItem.activity := "Shibuya Crossing";
     ItineraryItem.location := "Shibuya"; ItineraryItem.description := "Walk";
     ItineraryItem.googleMapsLink := link; ItineraryItem.locationUri := loc;
     ItineraryItem.hiddenGem := gem |}.

Definition nonbeiGem (link loc : option string) : HiddenGem.t :=
  {| HiddenGem.name := "Nonbei Yokocho"; HiddenGem.location := "Shibuya";
     HiddenGem.description := "Alley bars"; HiddenGem.googleMapsLink := link;
     HiddenGem.locationUri := loc |}.

Definition shibuyaSearch : string := "https://www.google.com/maps/search/?api=1&query=Shibuya".

Definition placeIdAndAtUrl : string :=
  "https://www.google.com/maps/place/X/@35.6,139.7,15z?place_id=ChIJabc".

(** Citations for the tie-break example: ["Tokyo Tower View"] has the words
    tokyo, tower, view; the first citation scores 1/3, the two others 2/3. *)
Definition towerShop : GroundingChunk.maps_payload :=
  {| GroundingChunk.uri := "https://maps.google.com/?cid=21";
     GroundingChunk.title := "Tokyo Tower Shop"; GroundingChunk.placeAnswerSources := None |}.

Definition tieSources : list GroundingChunk.t :=
  [mapsChunk "Tokyo Dome" "https://maps.google.com/?cid=20";
   {| GroundingChunk.web := None; GroundingChunk.maps := Some towerShop |};
   mapsChunk "Tower Records Tokyo" "https://maps.google.com/?cid=22"].

Definition shibuyaCitation : GroundingChunk.t :=
  mapsChunk "Shibuya" "https://maps.google.com/?cid=9".

(* ------------------------------------------------------------------ *)
(** ** [getCoordinatesFromUrl] (extractCoordinates.ts) *)

(** Extraction first; direct coordinates are returned as they are, a
    geocoding-required result with a (truthy) query goes to [geocodeQuery]. *)
Definition getCoordinatesFromUrl (decode : string -> option string) (mapsLoaded : bool)
  (geocoder : Geocoder) (url : string) (placeName : option string)
  : list GeocodeRequest * option (Q * Q) :=
  let result := extractCoordinatesFromUrl decode url in
  match CoordinateResult.coordinates result with
  | Some c => ([], Some c)
  | None =>
      if CoordinateResult.needsGeocoding result && JS.truthy (CoordinateResult.geocodingQuery result)
      then match CoordinateResult.geocodingQuery result with
           | Some q => geocodeQuery mapsLoaded geocoder q placeName
           | None => ([], None)
           end
      else ([], None)
  end.

(** [decodeURIComponent] for the Latin-1 string model: percent escapes of
    one byte below 0x80, and two-byte UTF-8 sequences with lead byte 0xC2 or
    0xC3 (code points 0x80-0xFF).  [None] stands for a [URIError] (malformed
    escape, bad continuation byte, overlong lead 0xC0/0xC1, stray
    continuation byte) and for a well-formed sequence whose code point is above
    0xFF, which the string model cannot hold. *)
Fixpoint decodeURIComponentL1 (s : string) : option string :=
  match s with
  | EmptyString => Some EmptyString
  | String c s' =>
      if Ascii.eqb c "%" then
        match s' with
        | String h1 (String h2 r) =>
            match hexVal h1, hexVal h2 with
            | Some a, Some b =>
                let b1 := (a * 16 + b)%nat in
                if (b1 <? 128)%nat then
                  option_map (String (ascii_of_nat b1)) (decodeURIComponentL1 r)
                else if (b1 =? 194)%nat || (b1 =? 195)%nat then
                  match r with
                  | String p (String h3 (String h4 r')) =>
                      if Ascii.eqb p "%" then
                        match hexVal h3, hexVal h4 with
                        | Some a', Some b' =>
                            let b2 := (a' * 16 + b')%nat in
                            if (128 <=? b2)%nat && (b2 <? 192)%nat then
                              option_map (String (ascii_of_nat ((b1 - 192) * 64 + (b2 - 128))))
                                (decodeURIComponentL1 r')
                            else None
                        | _, _ => None
                        end
                      else None
                  | _ => None
                  end
                else None
            | _, _ => None
            end
        | _ => None
        end
      else option_map (String c) (decodeURIComponentL1 s')
  end.

(** The escape [encodeURIComponent] produces for one character. *)
Definition encodeChar (c : ascii) : string :=
  let n := JS.code c in
  if uriUnreserved c then String c EmptyString
  else if (n <? 128)%nat then pctByte n
  else pctByte (192 + n / 64) ++ pctByte (128 + n mod 64).

(** Characters that start or end one of the extractor's patterns. *)
Definition patternChar (c : ascii) : bool :=
  Ascii.eqb c "@" || Ascii.eqb c "?" || Ascii.eqb c "&" || Ascii.eqb c "=" || Ascii.eqb c "/".

(** No such character anywhere in a string. *)
Definition patternFree (s : string) : bool :=
  forallb (fun c => negb (patternChar c)) (list_ascii_of_string s).

(* ------------------------------------------------------------------ *)
(** ** [getLocationImage.ts]: [findMatchingSource] and [extractPlaceInfo] *)

Definition looseMatch (a t : string) : bool :=
  String.eqb a t || JS.includes a t || JS.includes t a.

(** [findMatchingSource]: lower-cased and trimmed names; per source the maps
    title is tried before the web title. *)
Fixpoint findMatchingSource_loop (normalizedActivity : string) (sources : list GroundingChunk.t)
  : option GroundingChunk.t :=
  match sources with
  | [] => None
  | source :: rest =>
      let mapsHit :=
        match GroundingChunk.maps source with
        | Some m => JS.truthy (Some (GroundingChunk.title m)) &&
                    looseMatch normalizedActivity (trim (JS.toLowerCase (GroundingChunk.title m)))
        | None => false
        end in
      let webHit :=
        match GroundingChunk.web source with
        | Some w => JS.truthy (Some (GroundingChunk.web_title w)) &&
                    looseMatch normalizedActivity (trim (JS.toLowerCase (GroundingChunk.web_title w)))
        | None => false
        end in
      if mapsHit || webHit then Some source else findMatchingSource_loop normalizedActivity rest
  end.

Definition findMatchingSource (activityName : string) (sources : list GroundingChunk.t)
  : option GroundingChunk.t :=
  findMatchingSource_loop (trim (JS.toLowerCase activityName)) sources.

Inductive PlaceInfo :=
| PIPlaceId (placeId : string)
| PICoordinates (c : Q * Q).

(** [/\/place\/([^/@?]+)/] *)
Definition placeSegment (s : string) : option string :=
  Regex.bind (Regex.lit "/place/" s) (fun r =>
    Regex.bind (Regex.plus (fun c => negb (Ascii.eqb c "/" || Ascii.eqb c "@" || Ascii.eqb c "?")) r)
      (fun '(g, _) => Some g)).

(** [.replace(/\+/g, ' ')] *)
Fixpoint plusToSpace (s : string) : string :=
  match s with
  | EmptyString => EmptyString
  | String c s' => String (if Ascii.eqb c "+" then " "%char else c) (plusToSpace s')
  end.

(** [extractPlaceInfo]: the requests issued to the geocoder and the result;
    a [decodeURIComponent] failure is caught and gives [null]. *)
Definition extractPlaceInfo (decode : string -> option string) (mapsLoaded : bool)
  (geocoder : Geocoder) (url : string) (activityName : option string)
  : list GeocodeRequest * option PlaceInfo :=
  if String.eqb url "" then ([], None) else
  match Regex.search Regex.placeIdParam url with
  | Some g =>
      match decode g with
      | Some p => ([], Some (PIPlaceId p))
      | None => ([], None)
      end
  | None =>
      let result := extractCoordinatesFromUrl decode url in
      match CoordinateResult.coordinates result with
      | Some c => ([], Some (PICoordinates c))
      | None =>
          if CoordinateResult.needsGeocoding result && JS.truthy (CoordinateResult.geocodingQuery result)
          then
            let placeName :=
              if negb (JS.truthy activityName) && JS.includes url "/place/" then
                match Regex.search placeSegment url with
                | Some seg => option_map Some (decode (plusToSpace seg))
                | None => Some activityName
                end
              else Some activityName in
            match placeName with
            | None => ([], None)
            | Some pn =>
                let '(reqs, coords) := getCoordinatesFromUrl decode mapsLoaded geocoder url pn in
                (reqs, option_map PICoordinates coords)
            end
          else ([], None)
      end
  end.

(* ------------------------------------------------------------------ *)
(** ** Member preference aggregation (extractCoordinates.ts)

    [MemberPreferences] is declared in [types/member], which is not part of
    the sources; its fields are read off their uses: [budget] is an optional
    string, [interests], [dietary], [mustDo] and [veto] optional string
    arrays (JoinPlan.tsx builds them from comma-separated input). *)

Module MemberPreferences.
Record t := {
  budget : option string;
  interests : option (list string);
  dietary : option (list string);
  mustDo : option (list string);
  veto : option (list string) }.
End MemberPreferences.

(** [x || []] on an optional array. *)
Definition orEmpty (l : option (list string)) : list string :=
  match l with Some xs => xs | None => [] end.

(** [.filter(Boolean)] on strings. *)
Definition filterTruthy (l : list string) : list string :=
  filter (fun s => negb (String.eqb s "")) l.

(** [[...new Set(xs)]]: first occurrences, in order. *)
Fixpoint uniqFrom (seen : list string) (l : list string) : list string :=
  match l with
  | [] => []
  | x :: r => if existsb (String.eqb x) seen then uniqFrom seen r else x :: uniqFrom (x :: seen) r
  end.

Definition uniq (l : list string) : list string := uniqFrom [] l.

(** [xs.join(', ')] *)
Definition joinComma (l : list string) : string := String.concat ", " l.

(** Appends [" label: text."] to [aggregated], or sets it to
    ["label: text."] when [aggregated] is empty. *)
Definition appendSection (aggregated label text : string) : string :=
  if negb (String.eqb aggregated "")
  then aggregated ++ " " ++ label ++ ": " ++ text ++ "."
  else label ++ ": " ++ text ++ ".".

Definition aggregateGroupVibe (preferences : list MemberPreferences.t) (baseVibe : string) : string :=
  let budgets := filterTruthy (flat_map (fun p => match MemberPreferences.budget p with
                                                  | Some b => [b] | None => [] end) preferences) in
  let interests := filterTruthy (flat_map (fun p => orEmpty (MemberPreferences.interests p)) preferences) in
  let dietary := filterTruthy (flat_map (fun p => orEmpty (MemberPreferences.dietary p)) preferences) in
  let aggregated := baseVibe in
  let aggregated := match budgets with
                    | [] => aggregated
                    | _ => appendSection aggregated "Budget considerations" (joinComma budgets)
                    end in
  let aggregated := match interests with
                    | [] => aggregated
                    | _ => appendSection aggregated "Group interests include" (joinComma (uniq interests))
                    end in
  let aggregated := match dietary with
                    | [] => aggregated
                    | _ => appendSection aggregated "Dietary preferences" (joinComma (uniq dietary))
                    end in
  let t := trim aggregated in
  if negb (String.eqb t "") then t else baseVibe.

(** The common body of [aggregateMustDo] and [aggregateVeto]. *)
Definition aggregateList (members : list string) (base : string) : string :=
  match members with
  | [] => base
  | _ =>
      let all := if negb (String.eqb base "") then base :: members else members in
      joinComma (uniq all)
  end.

Definition aggregateMustDo (preferences : list MemberPreferences.t) (baseMustDo : string) : string :=
  aggregateList (filterTruthy (flat_map (fun p => orEmpty (MemberPreferences.mustDo p)) preferences))
    baseMustDo.

Definition aggregateVeto (preferences : list MemberPreferences.t) (baseVeto : string) : string :=
  aggregateList (filterTruthy (flat_map (fun p => orEmpty (MemberPreferences.veto p)) preferences))
    baseVeto.

(** A member's preferences, as concrete input. *)
Definition memberPrefs (budget : option string)
  (interests dietary mustDo veto : option (list string)) : MemberPreferences.t :=
  {| MemberPreferences.budget := budget; MemberPreferences.interests := interests;
     MemberPreferences.dietary := dietary; MemberPreferences.mustDo := mustDo;
     MemberPreferences.veto := veto |}.

(* ------------------------------------------------------------------ *)
(** ** Invite codes (inviteCode.ts) and passcodes (passcode.ts) *)

Definition inviteChars : string := "ABCDEFGHIJKLMNOPQRSTUVWXYZ0123456789".

(** [chars.charAt(i)]: the empty string out of range. *)
Definition charAt (s : string) (i : Z) : string :=
  if (0 <=? i)%Z && (i <? Z.of_nat (String.length s))%Z then
    match String.get (Z.to_nat i) s with Some c => String c EmptyString | None => EmptyString end
  else EmptyString.

(** The [for] loop of [generateInviteCode]: [random i] is the value of the
    [i]-th call of [Math.random()] (the rounding of [random i * 36] to a
    double is not modelled); [n] iterations are left. *)
Fixpoint inviteLoop (random : nat -> Q) (i n : nat) (code : string) : string :=
  match n with
  | O => code
  | S n' =>
      inviteLoop random (S i) n'
        (code ++ charAt inviteChars
                  (Qfloor (random i * inject_Z (Z.of_nat (String.length inviteChars)))))
  end.

Definition generateInviteCode (random : nat -> Q) : string :=
  let length := 6%nat in
  inviteLoop random 0 length EmptyString.

(** [.toUpperCase()] on a Latin-1 string, as UTF-16 code units: [a-z] and
    0xE0-0xFE (but 0xF7) move down by 32, [µ] becomes U+039C, [ÿ] U+0178
    and [ß] the two letters ["SS"]. *)
Definition upperUnits (c : ascii) : list nat :=
  let n := JS.code c in
  if ((97 <=? n) && (n <=? 122))%nat || ((224 <=? n) && (n <=? 254) && negb (n =? 247))%nat
  then [n - 32]%nat
  else if (n =? 181)%nat then [924]%nat
  else if (n =? 255)%nat then [376]%nat
  else if (n =? 223)%nat then [83; 83]%nat
  else [n].

Fixpoint toUpperCase (s : string) : list nat :=
  match s with
  | EmptyString => []
  | String c s' => upperUnits c ++ toUpperCase s'
  end.

(** [[A-Z0-9]] on a code unit. *)
Definition upperAlnumUnit (u : nat) : bool :=
  ((65 <=? u) && (u <=? 90))%nat || ((48 <=? u) && (u <=? 57))%nat.

(** [/^[A-Z0-9]{6,8}$/.test(code.toUpperCase())] *)
Definition validateInviteCode (code : string) : bool :=
  let u := toUpperCase code in
  ((6 <=? List.length u) && (List.length u <=? 8))%nat && forallb upperAlnumUnit u.

Module PasscodeValidation.
Record t := { valid : bool; error : option string }.
End PasscodeValidation.

Definition isDigit (c : ascii) : bool :=
  let n := JS.code c in ((48 <=? n) && (n <=? 57))%nat.

Definition isAlnum (c : ascii) : bool :=
  let n := JS.code c in
  ((48 <=? n) && (n <=? 57))%nat || ((65 <=? n) && (n <=? 90))%nat || ((97 <=? n) && (n <=? 122))%nat.

(** [/^p+$/.test(s)] *)
Definition allPlus (p : ascii -> bool) (s : string) : bool :=
  negb (String.eqb s "") && forallb p (list_ascii_of_string s).

Definition validatePasscode (passcode : string) : PasscodeValidation.t :=
  if String.eqb passcode "" || (String.length passcode <? 4)%nat || (6 <? String.length passcode)%nat
  then {| PasscodeValidation.valid := false;
          PasscodeValidation.error := Some "Passcode must be 4-6 characters long" |}
  else
    let digitOnly := allPlus isDigit passcode in
    let alphanumeric := allPlus isAlnum passcode in
    if negb digitOnly && negb alphanumeric
    then {| PasscodeValidation.valid := false;
            PasscodeValidation.error := Some "Passcode can only contain numbers and letters" |}
    else {| PasscodeValidation.valid := true; PasscodeValidation.error := None |}.

(* ------------------------------------------------------------------ *)
(** ** Firestore payload cleaning (utils/firebase.ts)

    JavaScript values with [undefined]; objects are their [Object.entries]
    in order.  [JObj] is a plain object; [JInst] is any other value whose
    [typeof] is ["object"] and that is not an array: a class instance such
    as a [Date] or a Firestore [FieldValue] sentinel, given by its own
    enumerable string-keyed properties (a [Date] has none). *)

Local Set Warnings "-register-all".

Inductive jvalue :=
| JUndefined
| JNull
| JBool (b : bool)
| JNum (q : Q)
| JStr (s : string)
| JArr (items : list jvalue)
| JObj (entries : list (string * jvalue))
| JInst (entries : list (string * jvalue)).

Definition isUndefined (v : jvalue) : bool :=
  match v with JUndefined => true | _ => false end.

Fixpoint removeUndefined (v : jvalue) : jvalue :=
  match v with
  | JArr items => JArr (filter (fun i => negb (isUndefined i)) (map removeUndefined items))
  | JObj entries | JInst entries =>
      JObj ((fix go (es : list (string * jvalue)) : list (string * jvalue) :=
               match es with
               | [] => []
               | (k, x) :: r => if isUndefined x then go r else (k, removeUndefined x) :: go r
               end) entries)
  | _ => v
  end.

Fixpoint undefinedToNull (v : jvalue) : jvalue :=
  match v with
  | JUndefined => JNull
  | JArr items => JArr (map undefinedToNull items)
  | JObj entries | JInst entries =>
      JObj ((fix go (es : list (string * jvalue)) : list (string * jvalue) :=
               match es with
               | [] => []
               | (k, x) :: r => (k, undefinedToNull x) :: go r
               end) entries)
  | _ => v
  end.

(** No [undefined] anywhere inside a value. *)
Fixpoint noUndefined (v : jvalue) : bool :=
  match v with
  | JUndefined => false
  | JArr items => forallb noUndefined items
  | JObj entries | JInst entries =>
      (fix go (es : list (string * jvalue)) : bool :=
         match es with
         | [] => true
         | (_, x) :: r => noUndefined x && go r
         end) entries
  | _ => true
  end.

(** Plain data only: no class instance anywhere inside a value. *)
Fixpoint isPlain (v : jvalue) : bool :=
  match v with
  | JInst _ => false
  | JArr items => forallb isPlain items
  | JObj entries =>
      (fix go (es : list (string * jvalue)) : bool :=
         match es with
         | [] => true
         | (_, x) :: r => isPlain x && go r
         end) entries
  | _ => true
  end.

(** The shape of a value: array lengths and object keys, recursively. *)
Inductive shape :=
| SLeaf
| SArr (l : list shape)
| SObj (l : list (string * shape)).

Fixpoint shapeOf (v : jvalue) : shape :=
  match v with
  | JArr items => SArr (map shapeOf items)
  | JObj entries | JInst entries => SObj (map (fun '(k, x) => (k, shapeOf x)) entries)
  | _ => SLeaf
  end.

(* ================================================================== *)
(** * Lemmas *)

Lemma prefix_refl : forall s, String.prefix s s = true.
Proof.
  induction s as [|c s IH]; simpl; [reflexivity|].
  destruct (ascii_dec c c) as [_|n]; [exact IH | contradiction].
Qed.

Lemma prefix_app : forall p s, String.prefix p (p ++ s) = true.
Proof.
  induction p as [|c p IH]; intros s; [destruct s; reflexivity|].
  simpl. destruct (ascii_dec c c); [apply IH|contradiction].
Qed.

Lemma includes_app_r : forall a b, JS.includes (a ++ b) b = true.
Proof.
  induction a as [|c a IH]; intros b.
  - destruct b; simpl; [reflexivity|]. rewrite prefix_refl. destruct (ascii_dec a a); [reflexivity|contradiction].
  - cbn [JS.includes append]. rewrite IH. destruct (String.prefix _ _); reflexivity.
Qed.

Lemma neighborhoodLoop_from_maps : forall l srcs u,
  neighborhoodLoop l srcs = Some u ->
  exists c m, In c srcs /\ GroundingChunk.maps c = Some m /\ GroundingChunk.uri m = u.
Proof.
  intros l srcs; induction srcs as [|c rest IH]; intros u H; simpl in H; [discriminate|].
  unfold mapsTitle in H.
  destruct (GroundingChunk.maps c) as [m|] eqn:Hm.
  - destruct (String.eqb (GroundingChunk.title m) "").
    + destruct (IH u H) as (c' & m' & Hin & ?); exists c', m'; simpl; auto.
    + destruct (_ && isNeighborhoodTitle _).
      * injection H as <-. exists c, m; simpl; auto.
      * destruct (IH u H) as (c' & m' & Hin & ?); exists c', m'; simpl; auto.
  - destruct (IH u H) as (c' & m' & Hin & ?); exists c', m'; simpl; auto.
Qed.

(** ** C1 *)

(** [normalizeString "Park Hyatt Tokyo"] is judged generic: the keyword
    ["at"] occurs inside ["hyatt"]. *)
Lemma parkHyatt_generic :
  normalizeString "Park Hyatt Tokyo" = "park hyatt tokyo" /\
  JS.includes "park hyatt tokyo" "at" = true /\
  isGeneric "park hyatt tokyo" = true.
Proof. vm_compute. auto. Qed.

(** C1: annotating an itinerary whose only hotel is "Park Hyatt Tokyo" with a
    [null] map-link, against the single maps citation titled
    "Park Hyatt Tokyo" with uri "https://maps.google.com/?cid=123", leaves the
    hotel's map-link [null]: [findMatchingUri] rejects the name as generic
    before looking at the citations. *)
Theorem C1_parkHyatt_stays_null :
  map Hotel.googleMapsLink
    (Itinerary.recommendedHotels
       (matchSourcesToItinerary (tokyoTrip [parkHyatt] []) [parkHyattCitation]))
  = [None].
Proof. vm_compute. reflexivity. Qed.

(** ** C9 *)

(** C9: [findNeighborhoodUri] always returns a URL: either the uri of a maps
    citation from the list or the generated maps-search URL, which contains
    the URL-encoded area name; for "Shibuya" and no citations it is the
    search link for "Shibuya". *)
Theorem C9_findNeighborhoodUri_total :
  (forall location sources,
     (findNeighborhoodUri location sources = generateNeighborhoodMapsUrl location \/
      exists c m, In c sources /\ GroundingChunk.maps c = Some m /\
                  findNeighborhoodUri location sources = GroundingChunk.uri m) /\
     JS.includes (generateNeighborhoodMapsUrl location) (encodeURIComponent location) = true) /\
  findNeighborhoodUri "Shibuya" [] = shibuyaSearch /\
  JS.includes (findNeighborhoodUri "Shibuya" []) "Shibuya" = true.
Proof.
  split; [|split; vm_compute; reflexivity].
  intros location sources; split.
  - unfold findNeighborhoodUri.
    destruct (neighborhoodLoop _ sources) as [u|] eqn:H; [right|left; reflexivity].
    destruct (neighborhoodLoop_from_maps _ _ _ H) as (c & m & Hin & Hm & Hu).
    exists c, m; auto.
  - apply includes_app_r.
Qed.

(** ** C3 *)

(** C3 (evaluation at the failing input): an itinerary whose hotel, item and
    hidden gem all carry non-null map-links and neighborhood-links is not
    returned unchanged: the item's existing [locationUri] is replaced by
    [findNeighborhoodUri item.location sources], here the generated search
    link for "Shibuya", while the hidden gem's one is kept. *)
Theorem C3_populated_item_locationUri_overwritten :
  let it := tokyoTrip
              [{| Hotel.name := "Park Hyatt Tokyo"; Hotel.description := "Luxury hotel";
                  Hotel.location := "Shinjuku";
                  Hotel.googleMapsLink := Some "https://maps.google.com/?cid=123" |}]
              [oneDay [crossingItem (Some "https://maps.google.com/?cid=1")
                                    (Some "https://maps.google.com/?cid=2")
                                    (Some (nonbeiGem (Some "https://maps.google.com/?cid=3")
                                                     (Some "https://maps.google.com/?cid=4")))]] in
  fullyPopulated it = true /\
  map ItineraryItem.locationUri (allItems (matchSourcesToItinerary it [])) = [Some shibuyaSearch] /\
  matchSourcesToItinerary it [] <> it.
Proof.
  intros it. split; [vm_compute; reflexivity|]. split; [vm_compute; reflexivity|].
  intros H. apply (f_equal (fun x => map ItineraryItem.locationUri (allItems x))) in H.
  vm_compute in H. discriminate H.
Qed.

(** ** C4 *)

(** C4 (counterexample): a link carrying both [place_id=ChIJabc] and an
    [@35.6,139.7] pair yields the direct coordinates, not a geocoding
    request for the place id. *)
Lemma C4_coords_before_place_id :
  JS.includes placeIdAndAtUrl "place_id=" = true /\
  extractCoordinatesFromUrl decodeAscii placeIdAndAtUrl = direct (356 # 10, 1397 # 10).
Proof. vm_compute. split; reflexivity. Qed.

(** C4 (amended): whatever [decodeURIComponent] does, a valid coordinate pair
    in the [@], [q=], [ll=] or [center=] shapes is returned as direct
    coordinates even when a [place_id=] parameter is present; the place
    identifier is returned as a geocoding-required result when none of those
    shapes yields a valid pair, there is no [cid=] parameter, and the
    identifier decodes; and only then: a result carrying a place identifier
    comes from exactly that case. *)
Theorem C4_place_id_after_coordinates :
  forall (decode : string -> option string),
  (forall url c, firstCoords url = Some c ->
     extractCoordinatesFromUrl decode url = direct c) /\
  (forall url g p,
     firstCoords url = None ->
     Regex.search Regex.cidParam url = None ->
     Regex.search Regex.placeIdParam url = Some g ->
     decode g = Some p ->
     extractCoordinatesFromUrl decode url = geocodeFor p) /\
  (forall url p,
     CoordinateResult.placeId (extractCoordinatesFromUrl decode url) = Some p ->
     firstCoords url = None /\ Regex.search Regex.cidParam url = None /\
     exists g, Regex.search Regex.placeIdParam url = Some g /\ decode g = Some p).
Proof.
  intros decode; split; [|split].
  - intros url c H. unfold firstCoords in H. unfold extractCoordinatesFromUrl.
    destruct (String.eqb url "") eqn:E.
    + apply String.eqb_eq in E; subst url. discriminate H.
    + destruct (tryCoords (Regex.search Regex.atCoords url)); [congruence|].
      destruct (tryCoords (Regex.search Regex.qNumeric url)); [congruence|].
      destruct (tryCoords (Regex.search Regex.llCoords url)); [congruence|].
      rewrite H. reflexivity.
  - intros url g p H Hcid Hpid Hdec. unfold firstCoords in H. unfold extractCoordinatesFromUrl.
    destruct (String.eqb url "") eqn:E.
    + apply String.eqb_eq in E; subst url. discriminate Hpid.
    + destruct (tryCoords (Regex.search Regex.atCoords url)); [discriminate|].
      destruct (tryCoords (Regex.search Regex.qNumeric url)); [discriminate|].
      destruct (tryCoords (Regex.search Regex.llCoords url)); [discriminate|].
      rewrite H, Hcid, Hpid, Hdec. reflexivity.
  - intros url p H. unfold extractCoordinatesFromUrl in H. unfold firstCoords.
    destruct (String.eqb url "") eqn:E; [discriminate H|].
    destruct (tryCoords (Regex.search Regex.atCoords url)); [discriminate H|].
    destruct (tryCoords (Regex.search Regex.qNumeric url)); [discriminate H|].
    destruct (tryCoords (Regex.search Regex.llCoords url)); [discriminate H|].
    destruct (tryCoords (Regex.search Regex.centerCoords url)); [discriminate H|].
    destruct (Regex.search Regex.cidParam url) as [g|];
      [destruct (decode g); discriminate H|].
    destruct (Regex.search Regex.placeIdParam url) as [g|].
    + destruct (decode g) as [p'|] eqn:Hd; [|discriminate H].
      cbn in H. injection H as <-. split; [reflexivity|]. split; [reflexivity|]. eauto.
    + destruct (Regex.search Regex.queryParam url) as [q|];
        [destruct (decode q); discriminate H|].
      destruct (tryCoords (Regex.search Regex.placePath url)); discriminate H.
Qed.

(** ** C6 *)

(** C6 (counterexample): for ["cid:123"] with no place name and a geocoder
    that resolves every address, [geocodeQuery] geocodes the identifier
    ["123"] by address and returns its coordinates instead of [null]. *)
Lemma C6_cid_without_name_geocodes_identifier :
  geocodeQuery true (fun _ => Some (1 # 1, 2 # 1)) "cid:123" None
  = ([ByAddress "123"], Some (1 # 1, 2 # 1)).
Proof. vm_compute. reflexivity. Qed.

Lemma substring_0_ge : forall s m, (String.length s <= m)%nat -> substring 0 m s = s.
Proof.
  induction s as [|c s IH]; intros m Hm; simpl in *; [destruct m; reflexivity|].
  destruct m as [|m]; [lia|]. rewrite IH by lia. reflexivity.
Qed.

Lemma replace_cid_prefix : forall id, JS.replace "cid:" "" ("cid:" ++ id) = id.
Proof.
  intros id. simpl. destruct id; simpl; [reflexivity|]. f_equal. apply substring_0_ge; lia.
Qed.

(** C6 (amended): for a query ["cid:" ++ id] with the Maps API loaded,
    [geocodeQuery] issues exactly one geocode request: by the place name when
    a non-empty one is supplied, and otherwise (absent or empty name) by the
    identifier [id] itself, returning that request's result; when the API is
    unavailable it issues no request and returns [null]. *)
Theorem C6_cid_geocoding :
  forall (geocoder : Geocoder) (id name : string),
  name <> "" ->
  geocodeQuery true geocoder ("cid:" ++ id) (Some name)
    = ([ByAddress name], geocoder (ByAddress name)) /\
  geocodeQuery true geocoder ("cid:" ++ id) None
    = ([ByAddress id], geocoder (ByAddress id)) /\
  geocodeQuery true geocoder ("cid:" ++ id) (Some "")
    = ([ByAddress id], geocoder (ByAddress id)) /\
  (forall query placeName, geocodeQuery false geocoder query placeName = ([], None)).
Proof.
  intros geocoder id name Hname.
  unfold geocodeQuery, JS.startsWith.
  assert (Hp : String.prefix "cid:" ("cid:" ++ id) = true) by apply prefix_app.
  rewrite Hp. simpl negb. cbv iota.
  rewrite replace_cid_prefix.
  unfold JS.or, JS.truthy.
  destruct (String.eqb name "") eqn:E; [apply String.eqb_eq in E; contradiction|].
  simpl. repeat split; reflexivity.
Qed.

(** ** C5 *)

Lemma validLatLng_iff : forall lat lng,
  validLatLng lat lng = true <-> ((-90 <= lat <= 90) /\ (-180 <= lng <= 180))%Q.
Proof.
  intros lat lng. unfold validLatLng.
  rewrite !andb_true_iff, !Qle_bool_iff. tauto.
Qed.

Lemma search_at_nonempty : forall url p,
  Regex.search Regex.atCoords url = Some p -> String.eqb url "" = false.
Proof. intros [|c url] p H; [discriminate H | reflexivity]. Qed.

(** C5: for a link whose [@] pattern captures two numbers that parse as
    [lat] and [lng]: if both are in range, the result is exactly the direct
    pair [(lat, lng)]; if one is out of range and no other recognised pattern
    is present (the [/place/name@] shape may only repeat the same pair), the
    result is "no result", never a clamped or wrapped pair. *)
Theorem C5_at_pair_exact_or_nothing :
  forall (decode : string -> option string) url s1 s2 lat lng,
  Regex.search Regex.atCoords url = Some (s1, s2) ->
  parseFloat s1 = Some lat -> parseFloat s2 = Some lng ->
  (((-90 <= lat <= 90) /\ (-180 <= lng <= 180))%Q ->
     extractCoordinatesFromUrl decode url = direct (lat, lng)) /\
  (~ ((-90 <= lat <= 90) /\ (-180 <= lng <= 180))%Q ->
     Regex.search Regex.qNumeric url = None ->
     Regex.search Regex.llCoords url = None ->
     Regex.search Regex.centerCoords url = None ->
     Regex.search Regex.cidParam url = None ->
     Regex.search Regex.placeIdParam url = None ->
     Regex.search Regex.queryParam url = None ->
     (Regex.search Regex.placePath url = None \/
      Regex.search Regex.placePath url = Some (s1, s2)) ->
     extractCoordinatesFromUrl decode url = noResult).
Proof.
  intros decode url s1 s2 lat lng Hat H1 H2.
  assert (Hne := search_at_nonempty _ _ Hat).
  assert (Htry : tryCoords (Regex.search Regex.atCoords url) =
                 if validLatLng lat lng then Some (lat, lng) else None)
    by (rewrite Hat; simpl; rewrite H1, H2; reflexivity).
  split.
  - intros Hv. apply validLatLng_iff in Hv.
    unfold extractCoordinatesFromUrl. rewrite Hne, Htry, Hv. reflexivity.
  - intros Hv Hq Hll Hc Hcid Hpid Hqry Hpp.
    destruct (validLatLng lat lng) eqn:E; [apply validLatLng_iff in E; contradiction|].
    assert (Hpp' : tryCoords (Regex.search Regex.placePath url) = None).
    { destruct Hpp as [Hpp|Hpp]; rewrite Hpp; simpl; [reflexivity|].
      rewrite H1, H2, E. reflexivity. }
    unfold extractCoordinatesFromUrl.
    rewrite Hne, Htry, Hq, Hll, Hc, Hcid, Hpid, Hqry, Hpp'. reflexivity.
Qed.

(** ** C2 *)

Lemma Forall2_map_r : forall {A B} (R : A -> B -> Prop) (f : A -> B) l,
  (forall x, R x (f x)) -> Forall2 R l (map f l).
Proof. intros A B R f l H; induction l; constructor; auto. Qed.

Lemma or_truthy : forall a b, JS.truthy a = true -> JS.or a b = a.
Proof. intros a b H. unfold JS.or. rewrite H. reflexivity. Qed.

Lemma matchHotel_rel : forall sources h, hotel_rel h (matchHotel sources h).
Proof.
  intros sources h. unfold matchHotel, hotel_rel, keeps.
  destruct (JS.truthy (Hotel.googleMapsLink h)) eqn:E; simpl.
  - repeat split; reflexivity.
  - repeat split; try reflexivity. intros H; congruence.
Qed.

Lemma matchGem_rel : forall sources g, gem_rel g (matchGem sources g).
Proof.
  intros sources g. unfold matchGem, gem_rel, keeps.
  destruct (JS.truthy (HiddenGem.locationUri g)) eqn:El;
  destruct (JS.truthy (HiddenGem.googleMapsLink g)) eqn:Eg; simpl;
  repeat split; try reflexivity; try (intros H; congruence);
  intros _; apply or_truthy; assumption.
Qed.

Lemma matchItem_rel : forall sources i, item_rel i (matchItem sources i).
Proof.
  intros sources i. unfold matchItem, item_rel, keeps. simpl.
  repeat split; try reflexivity.
  - intros H. rewrite (or_truthy _ _ H). apply or_truthy; assumption.
  - destruct (ItineraryItem.hiddenGem i) as [g|]; simpl; [apply matchGem_rel | exact I].
Qed.

Lemma matchDay_rel : forall sources d, day_rel d (matchDay sources d).
Proof.
  intros sources d. unfold day_rel, matchDay. simpl.
  repeat split; try reflexivity. apply Forall2_map_r, matchItem_rel.
Qed.

(** C2 (counterexample): a hotel whose map-link is the empty string (a
    non-null value) gets a different non-null map-link from a citation. *)
Lemma C2_empty_link_replaced :
  let hotel := {| Hotel.name := "Tokyo Tower"; Hotel.description := "Tower";
                  Hotel.location := "Minato"; Hotel.googleMapsLink := Some "" |} in
  map Hotel.googleMapsLink
    (Itinerary.recommendedHotels
       (matchSourcesToItinerary (tokyoTrip [hotel] [])
          [mapsChunk "Tokyo Tower" "https://maps.google.com/?cid=7"]))
  = [Some "https://maps.google.com/?cid=7"].
Proof. vm_compute. reflexivity. Qed.

Lemma mapsTitle_some : forall c m, mapsTitle c = Some m -> GroundingChunk.maps c = Some m.
Proof.
  intros c m. unfold mapsTitle. destruct (GroundingChunk.maps c) as [m'|]; [|discriminate].
  destruct (String.eqb _ _); congruence.
Qed.

Lemma firstSimilar_from_maps : forall p l u,
  firstSimilar p l = Some u ->
  exists c m, In c l /\ GroundingChunk.maps c = Some m /\ GroundingChunk.uri m = u.
Proof.
  intros p l; induction l as [|c l IH]; intros u H; simpl in H; [discriminate|].
  destruct (mapsTitle c) as [m|] eqn:Hm.
  - destruct (isSimilarMatch _ _).
    + injection H as <-. exists c, m. simpl. auto using mapsTitle_some.
    + destruct (IH u H) as (c' & m' & ? & ? & ?). exists c', m'. simpl. auto.
  - destruct (IH u H) as (c' & m' & ? & ? & ?). exists c', m'. simpl. auto.
Qed.

Lemma bestLoop_from_maps : forall ws l b m s,
  bestLoop ws b l = Some (m, s) ->
  (exists s0, b = Some (m, s0)) \/
  exists c, In c l /\ GroundingChunk.maps c = Some m.
Proof.
  intros ws l; induction l as [|c l IH]; intros b m s H; simpl in H; [left; eauto|].
  destruct (mapsTitle c) as [m'|] eqn:Hm.
  - destruct (_ && _).
    + destruct (IH _ _ _ H) as [(s0 & Hs0)|(c' & ? & ?)].
      * injection Hs0 as <- _. right. exists c. simpl. auto using mapsTitle_some.
      * right. exists c'. simpl. auto.
    + destruct (IH _ _ _ H) as [?|(c' & ? & ?)]; [left; assumption|right; exists c'; simpl; auto].
  - destruct (IH _ _ _ H) as [?|(c' & ? & ?)]; [left; assumption|right; exists c'; simpl; auto].
Qed.

Lemma or_falsy_None : forall a, JS.truthy a = false -> JS.or a None = None.
Proof. intros a H. unfold JS.or. rewrite H. reflexivity. Qed.

Lemma findMatchingUri_cites : forall placeName sources,
  findMatchingUri placeName sources = None \/
  exists c m, In c sources /\ GroundingChunk.maps c = Some m /\
    findMatchingUri placeName sources = Some (GroundingChunk.uri m).
Proof.
  intros placeName sources. unfold findMatchingUri.
  destruct (isGeneric _); [left; reflexivity|].
  destruct (firstSimilar placeName sources) as [u|] eqn:H1.
  - right. destruct (firstSimilar_from_maps _ _ _ H1) as (c & m & Hin & Hm & Hu).
    exists c, m. subst u. auto.
  - destruct (placeWordsOf _) as [|w ws]; [left; reflexivity|].
    destruct (bestLoop _ None sources) as [[m s]|] eqn:H2; [|left; reflexivity].
    destruct (bestLoop_from_maps _ _ _ _ _ H2) as [(s0 & Hs0)|(c & Hin & Hm)]; [discriminate|].
    right. exists c, m. auto.
Qed.

Lemma or_None_cites : forall sources x,
  (x = None \/ exists c m, In c sources /\ GroundingChunk.maps c = Some m /\
                           x = Some (GroundingChunk.uri m)) ->
  JS.or x None = None \/ exists c m, In c sources /\ GroundingChunk.maps c = Some m /\
                                     JS.or x None = Some (GroundingChunk.uri m).
Proof.
  intros sources x H. unfold JS.or. destruct (JS.truthy x); [exact H | left; reflexivity].
Qed.

Lemma matchItem_fills : forall sources i,
  fills sources (ItineraryItem.googleMapsLink i) (ItineraryItem.googleMapsLink (matchItem sources i)) /\
  option_rel (fun g g' => fills sources (HiddenGem.googleMapsLink g) (HiddenGem.googleMapsLink g'))
    (ItineraryItem.hiddenGem i) (ItineraryItem.hiddenGem (matchItem sources i)).
Proof.
  intros sources i. unfold matchItem. cbn [ItineraryItem.googleMapsLink ItineraryItem.hiddenGem].
  split.
  - intros Hl.
    replace (JS.or (ItineraryItem.googleMapsLink i) (findMatchingUri (ItineraryItem.activity i) sources))
      with (findMatchingUri (ItineraryItem.activity i) sources) by (unfold JS.or; rewrite Hl; reflexivity).
    apply or_None_cites, findMatchingUri_cites.
  - destruct (ItineraryItem.hiddenGem i) as [g|]; [|exact I]. cbn [option_map option_rel].
    intros Hl. unfold matchGem. rewrite Hl. cbn [negb].
    destruct (JS.truthy (HiddenGem.locationUri g)); cbn [setGem HiddenGem.googleMapsLink].
    + left. apply or_falsy_None, Hl.
    + apply or_None_cites, findMatchingUri_cites.
Qed.

(** C2 (amended): annotation keeps the trip title, vibe check and packing
    list, the number and order of hotels, days and items, every non-link
    field of hotels, days, items and hidden gems, and whether an item has a
    hidden gem; a map-link holding a non-empty string (hotel, item or hidden
    gem) is never changed, nor is a hidden gem's non-empty [locationUri];
    and a null or empty map-link becomes null or the uri of a citation's
    maps payload. *)
Theorem C2_annotation_preserves_structure :
  forall it sources,
  itinerary_rel it (matchSourcesToItinerary it sources) /\
  itinerary_fills sources it (matchSourcesToItinerary it sources).
Proof.
  intros it sources. split.
  - unfold itinerary_rel, matchSourcesToItinerary. simpl.
    repeat split; try reflexivity.
    + apply Forall2_map_r, matchHotel_rel.
    + apply Forall2_map_r, matchDay_rel.
  - unfold itinerary_fills, matchSourcesToItinerary. cbn [Itinerary.recommendedHotels
      Itinerary.dailyItinerary]. split.
    + apply Forall2_map_r. intros h Hl. unfold matchHotel. rewrite Hl. cbn [negb Hotel.googleMapsLink].
      apply findMatchingUri_cites.
    + apply Forall2_map_r. intros d. unfold matchDay. cbn [DailyPlan.items].
      apply Forall2_map_r, matchItem_fills.
Qed.

(** ** C7 *)

Lemma findNeighborhoodUri_nonempty : forall location sources,
  (forall c m, In c sources -> GroundingChunk.maps c = Some m -> GroundingChunk.uri m <> "") ->
  findNeighborhoodUri location sources <> "".
Proof.
  intros location sources Hs. unfold findNeighborhoodUri.
  destruct (neighborhoodLoop _ sources) as [u|] eqn:H.
  - destruct (neighborhoodLoop_from_maps _ _ _ H) as (c & m & Hin & Hm & <-). eauto.
  - unfold generateNeighborhoodMapsUrl, mapsSearchPrefix. simpl. discriminate.
Qed.

Lemma truthy_nonempty : forall u, u <> "" -> JS.truthy (Some u) = true.
Proof.
  intros u H. unfold JS.truthy. destruct (String.eqb u "") eqn:E; [|reflexivity].
  apply String.eqb_eq in E. contradiction.
Qed.

Lemma allItems_match : forall it sources,
  allItems (matchSourcesToItinerary it sources) = map (matchItem sources) (allItems it).
Proof.
  intros it sources. unfold allItems, matchSourcesToItinerary. simpl.
  induction (Itinerary.dailyItinerary it) as [|d ds IH]; simpl; [reflexivity|].
  rewrite map_app, IH. reflexivity.
Qed.

Lemma matchItem_nb : forall sources i,
  (forall c m, In c sources -> GroundingChunk.maps c = Some m -> GroundingChunk.uri m <> "") ->
  item_nb sources i (matchItem sources i).
Proof.
  intros sources i Hs. unfold item_nb, matchItem.
  cbn [ItineraryItem.locationUri ItineraryItem.hiddenGem ItineraryItem.location].
  pose proof (findNeighborhoodUri_nonempty (ItineraryItem.location i) sources Hs) as Hr.
  rewrite (truthy_nonempty _ Hr).
  split; [eauto|split; [reflexivity|]].
  destruct (ItineraryItem.hiddenGem i) as [g|]; simpl; [|exact I].
  pose proof (findNeighborhoodUri_nonempty (HiddenGem.location g) sources Hs) as Hg.
  unfold gem_nb, matchGem.
  destruct (JS.truthy (HiddenGem.locationUri g)) eqn:El;
  destruct (JS.truthy (HiddenGem.googleMapsLink g)) eqn:Eg;
  cbn [HiddenGem.locationUri setGem];
  repeat split; intros; try discriminate; try reflexivity.
  rewrite (truthy_nonempty _ Hg). reflexivity.
Qed.

(** C7 (code bug): a hidden gem that already has a map-link but no
    [locationUri] is left without a neighborhood-link, while its parent
    item, which has neither, gets the generated one: with no citations the
    item's [locationUri] becomes the Shibuya search link and the gem's stays
    null. *)
Lemma C7_gem_with_link_gets_no_locationUri :
  let it := tokyoTrip []
              [oneDay [crossingItem None None
                         (Some (nonbeiGem (Some "https://maps.google.com/?cid=3") None))]] in
  map (fun i => (ItineraryItem.locationUri i,
                  option_map HiddenGem.locationUri (ItineraryItem.hiddenGem i)))
      (allItems (matchSourcesToItinerary it [])) = [(Some shibuyaSearch, Some None)].
Proof. vm_compute. reflexivity. Qed.

(** What annotation does to neighborhood links: when every maps citation
    has a non-empty uri, every annotated item has a non-empty [locationUri],
    and an item that had none gets [findNeighborhoodUri item.location
    sources], whether or not it has a map-link.  A hidden gem keeps a
    non-empty [locationUri]; without one it gets [findNeighborhoodUri
    gem.location sources] only when it has no map-link, and otherwise stays
    as it was. *)
Theorem neighborhood_links_annotation :
  forall it sources,
  (forall c m, In c sources -> GroundingChunk.maps c = Some m -> GroundingChunk.uri m <> "") ->
  Forall2 (item_nb sources) (allItems it) (allItems (matchSourcesToItinerary it sources)).
Proof.
  intros it sources Hs. rewrite allItems_match.
  apply Forall2_map_r. intros i. apply matchItem_nb, Hs.
Qed.

(** ** C10 *)

Lemma mapsTitle_no_maps : forall c, hasMaps c = false -> mapsTitle c = None.
Proof. intros c H. unfold hasMaps in H. unfold mapsTitle. destruct (GroundingChunk.maps c); congruence. Qed.

(** Each scan skips citations without a maps payload, so dropping them
    changes nothing. *)
Ltac skip_web IH :=
  intros; simpl; destruct (hasMaps _) eqn:Hm; simpl;
  [ destruct (mapsTitle _);
    [ match goal with |- context [if ?b then _ else _] => destruct b end | ]
  | rewrite (mapsTitle_no_maps _ Hm) ];
  rewrite ?IH; reflexivity.

Lemma firstSimilar_filter : forall p l,
  firstSimilar p (filter hasMaps l) = firstSimilar p l.
Proof. intros p l; induction l as [|c l IH]; [reflexivity|]. skip_web IH. Qed.

Lemma bestLoop_filter : forall ws l b,
  bestLoop ws b (filter hasMaps l) = bestLoop ws b l.
Proof. intros ws l; induction l as [|c l IH]; [reflexivity|]. skip_web IH. Qed.

Lemma neighborhoodLoop_filter : forall n l,
  neighborhoodLoop n (filter hasMaps l) = neighborhoodLoop n l.
Proof. intros n l; induction l as [|c l IH]; [reflexivity|]. skip_web IH. Qed.

Lemma findMatchingUri_filter : forall p l,
  findMatchingUri p (filter hasMaps l) = findMatchingUri p l.
Proof.
  intros p l. unfold findMatchingUri. rewrite firstSimilar_filter.
  destruct (placeWordsOf _); [reflexivity|]. rewrite bestLoop_filter. reflexivity.
Qed.

Lemma findNeighborhoodUri_filter : forall n l,
  findNeighborhoodUri n (filter hasMaps l) = findNeighborhoodUri n l.
Proof. intros n l. unfold findNeighborhoodUri. rewrite neighborhoodLoop_filter. reflexivity. Qed.

Lemma matchSourcesToItinerary_filter : forall it l,
  matchSourcesToItinerary it (filter hasMaps l) = matchSourcesToItinerary it l.
Proof.
  intros it l.
  assert (Hh : forall h, matchHotel (filter hasMaps l) h = matchHotel l h)
    by (intros h; unfold matchHotel; rewrite findMatchingUri_filter; reflexivity).
  assert (Hg : forall g, matchGem (filter hasMaps l) g = matchGem l g)
    by (intros g; unfold matchGem;
        rewrite findMatchingUri_filter, findNeighborhoodUri_filter; reflexivity).
  assert (Hi : forall i, matchItem (filter hasMaps l) i = matchItem l i).
  { intros i. unfold matchItem.
    rewrite findMatchingUri_filter, findNeighborhoodUri_filter.
    destruct (ItineraryItem.hiddenGem i); simpl; rewrite ?Hg; reflexivity. }
  assert (Hd : forall d, matchDay (filter hasMaps l) d = matchDay l d)
    by (intros d; unfold matchDay; rewrite (map_ext _ _ Hi); reflexivity).
  unfold matchSourcesToItinerary. rewrite (map_ext _ _ Hh), (map_ext _ _ Hd). reflexivity.
Qed.

(** C10: the matcher only reads maps payloads: dropping every citation
    without one (in particular every web-only citation, whatever its title)
    changes neither [findMatchingUri], nor [findNeighborhoodUri], nor the
    annotated itinerary; and a URI returned by [findMatchingUri] is the uri of
    the maps payload of a citation in the list. *)
Theorem C10_maps_payload_only :
  forall placeName location it sources,
  findMatchingUri placeName (filter hasMaps sources) = findMatchingUri placeName sources /\
  findNeighborhoodUri location (filter hasMaps sources) = findNeighborhoodUri location sources /\
  matchSourcesToItinerary it (filter hasMaps sources) = matchSourcesToItinerary it sources /\
  match findMatchingUri placeName sources with
  | Some u => exists c m, In c sources /\ GroundingChunk.maps c = Some m /\ GroundingChunk.uri m = u
  | None => True
  end.
Proof.
  intros placeName location it sources.
  split; [apply findMatchingUri_filter|].
  split; [apply findNeighborhoodUri_filter|].
  split; [apply matchSourcesToItinerary_filter|].
  unfold findMatchingUri.
  destruct (isGeneric _); [exact I|].
  destruct (firstSimilar placeName sources) as [u|] eqn:H1; [eapply firstSimilar_from_maps; eauto|].
  destruct (placeWordsOf _) as [|w ws]; [exact I|].
  destruct (bestLoop _ None sources) as [[m s]|] eqn:H2; [|exact I].
  destruct (bestLoop_from_maps _ _ _ _ _ H2) as [(s0 & Hs0)|(c & Hin & Hm)]; [discriminate|].
  exists c, m. auto.
Qed.

(** ** C8 *)

Lemma bestLoop_app : forall ws l1 l2 b,
  bestLoop ws b (l1 ++ l2) = bestLoop ws (bestLoop ws b l1) l2.
Proof.
  intros ws l1; induction l1 as [|c l1 IH]; intros l2 b; simpl; [reflexivity|].
  destruct (mapsTitle c); [destruct (_ && _)|]; apply IH.
Qed.

Lemma scoreOf_title : forall ws c m s,
  mapsTitle c = Some m -> scoreOf ws c = Some s ->
  wordScore ws (normalizeString (GroundingChunk.title m)) = s.
Proof. intros ws c m s Hm H. unfold scoreOf in H. rewrite Hm in H. injection H as <-. reflexivity. Qed.

(** Once a best match of score [s] is held, no later citation of score at
    most [s] replaces it. *)
Lemma bestLoop_keep : forall ws l m s,
  (forall c s', In c l -> scoreOf ws c = Some s' -> (s' <= s)%Q) ->
  bestLoop ws (Some (m, s)) l = Some (m, s).
Proof.
  intros ws l; induction l as [|c l IH]; intros m s Hl; simpl; [reflexivity|].
  assert (Hl' : forall c' s', In c' l -> scoreOf ws c' = Some s' -> (s' <= s)%Q)
    by (intros; eapply Hl; simpl; eauto).
  destruct (mapsTitle c) as [m'|] eqn:Hm; [|apply IH, Hl'].
  assert (Hle : (wordScore ws (normalizeString (GroundingChunk.title m')) <= s)%Q)
    by (eapply Hl; [left; reflexivity | unfold scoreOf; rewrite Hm; reflexivity]).
  apply Qle_bool_iff in Hle. rewrite Hle, andb_false_r. apply IH, Hl'.
Qed.

Lemma bestLoop_below : forall ws l b s,
  (forall c s', In c l -> scoreOf ws c = Some s' -> (s' < s)%Q) ->
  below s b -> below s (bestLoop ws b l).
Proof.
  intros ws l; induction l as [|c l IH]; intros b s Hl Hb; simpl; [assumption|].
  assert (Hl' : forall c' s', In c' l -> scoreOf ws c' = Some s' -> (s' < s)%Q)
    by (intros; eapply Hl; simpl; eauto).
  destruct (mapsTitle c) as [m'|] eqn:Hm; [|apply IH; assumption].
  destruct (_ && _); apply IH; try assumption.
  simpl. eapply Hl; [left; reflexivity | unfold scoreOf; rewrite Hm; reflexivity].
Qed.

Lemma bestLoop_first_max : forall ws pre c1 rest m1 s,
  mapsTitle c1 = Some m1 -> scoreOf ws c1 = Some s -> (1 # 2 <= s)%Q ->
  (forall c s', In c pre -> scoreOf ws c = Some s' -> (s' < s)%Q) ->
  (forall c s', In c rest -> scoreOf ws c = Some s' -> (s' <= s)%Q) ->
  bestLoop ws None (pre ++ c1 :: rest) = Some (m1, s).
Proof.
  intros ws pre c1 rest m1 s Hm1 Hs1 Hhalf Hpre Hrest.
  rewrite bestLoop_app.
  assert (Hb := bestLoop_below ws pre None s Hpre I).
  destruct (bestLoop ws None pre) as [[mb sb]|]; simpl; rewrite Hm1;
  rewrite (scoreOf_title _ _ _ _ Hm1 Hs1);
  apply Qle_bool_iff in Hhalf; rewrite Hhalf; simpl.
  - simpl in Hb. destruct (Qle_bool s sb) eqn:E.
    + apply Qle_bool_iff in E. exfalso. apply (Qlt_not_le sb s Hb E).
    + simpl. apply bestLoop_keep, Hrest.
  - apply bestLoop_keep, Hrest.
Qed.

(** C8: for a non-generic place name none of whose citations matches in the
    exact/containment pass, when two citations [c1] (earlier) and [c2]
    (later) tie with the best word-overlap score [s >= 1/2] (every citation
    before [c1] scores less, every other one at most [s]), the matcher returns
    the uri of [c1], the earlier one. *)
Theorem C8_first_seen_wins_ties :
  forall placeName ws pre c1 mid c2 post m1 s,
  isGeneric (normalizeString placeName) = false ->
  placeWordsOf (normalizeString placeName) = ws -> ws <> [] ->
  firstSimilar placeName (pre ++ c1 :: mid ++ c2 :: post) = None ->
  mapsTitle c1 = Some m1 ->
  scoreOf ws c1 = Some s -> scoreOf ws c2 = Some s -> (1 # 2 <= s)%Q ->
  (forall c s', In c pre -> scoreOf ws c = Some s' -> (s' < s)%Q) ->
  (forall c s', In c (mid ++ post) -> scoreOf ws c = Some s' -> (s' <= s)%Q) ->
  findMatchingUri placeName (pre ++ c1 :: mid ++ c2 :: post) = Some (GroundingChunk.uri m1).
Proof.
  intros placeName ws pre c1 mid c2 post m1 s Hgen Hws Hne Hfirst Hm1 Hs1 Hs2 Hhalf Hpre Hrest.
  unfold findMatchingUri. rewrite Hgen, Hfirst, Hws.
  destruct ws as [|w ws']; [contradiction|].
  rewrite (bestLoop_first_max _ pre c1 (mid ++ c2 :: post) m1 s Hm1 Hs1 Hhalf Hpre).
  - reflexivity.
  - intros c s' Hin Hc. apply in_app_or in Hin as [Hin|[<-|Hin]].
    + apply (Hrest c); [apply in_or_app; left|]; assumption.
    + rewrite Hs2 in Hc. injection Hc as <-. apply Qle_refl.
    + apply (Hrest c); [apply in_or_app; right|]; assumption.
Qed.

(* ------------------------------------------------------------------ *)
(** ** Instances of the theorems at concrete inputs *)

Lemma C4_witness :
  extractCoordinatesFromUrl decodeAscii placeIdAndAtUrl = direct (356 # 10, 1397 # 10) /\
  extractCoordinatesFromUrl decodeAscii "https://maps.google.com/?place_id=ChIJabc"
    = geocodeFor "ChIJabc" /\
  Regex.search Regex.cidParam "https://maps.google.com/?place_id=ChIJabc" = None.
Proof.
  split; [|split].
  - apply (proj1 (C4_place_id_after_coordinates decodeAscii)). vm_compute. reflexivity.
  - apply (proj1 (proj2 (C4_place_id_after_coordinates decodeAscii))
             "https://maps.google.com/?place_id=ChIJabc" "ChIJabc");
      vm_compute; reflexivity.
  - apply (proj2 (proj2 (C4_place_id_after_coordinates decodeAscii))
             "https://maps.google.com/?place_id=ChIJabc" "ChIJabc").
    vm_compute. reflexivity.
Defined.

Lemma C5_witness :
  extractCoordinatesFromUrl decodeAscii "https://x/@35.6,139.7" = direct (356 # 10, 1397 # 10) /\
  extractCoordinatesFromUrl decodeAscii "https://x/@95,10" = noResult.
Proof.
  split.
  - apply (proj1 (C5_at_pair_exact_or_nothing decodeAscii "https://x/@35.6,139.7"
                    "35.6" "139.7" (356 # 10) (1397 # 10) eq_refl eq_refl eq_refl)).
    unfold Qle; simpl; lia.
  - apply (proj2 (C5_at_pair_exact_or_nothing decodeAscii "https://x/@95,10"
                    "95" "10" (95 # 1) (10 # 1) eq_refl eq_refl eq_refl));
      try (vm_compute; reflexivity).
    + unfold Qle; simpl; lia.
    + left; vm_compute; reflexivity.
Defined.

Lemma C6_witness :
  geocodeQuery true (fun _ => Some (1 # 1, 2 # 1)) ("cid:" ++ "123") (Some "Park Hyatt Tokyo")
  = ([ByAddress "Park Hyatt Tokyo"], Some (1 # 1, 2 # 1)).
Proof.
  apply (proj1 (C6_cid_geocoding (fun _ => Some (1 # 1, 2 # 1)) "123" "Park Hyatt Tokyo"
                  ltac:(intro H; discriminate H))).
Defined.

Lemma neighborhood_links_annotation_witness :
  Forall2 (item_nb [shibuyaCitation])
    (allItems (tokyoTrip [] [oneDay [crossingItem None None (Some (nonbeiGem None None))]]))
    (allItems (matchSourcesToItinerary
                 (tokyoTrip [] [oneDay [crossingItem None None (Some (nonbeiGem None None))]])
                 [shibuyaCitation])).
Proof.
  apply neighborhood_links_annotation.
  intros c m [<-|[]] H. injection H as <-. vm_compute. intro H; discriminate H.
Defined.

Lemma C8_witness :
  findMatchingUri "Tokyo Tower View" tieSources = Some "https://maps.google.com/?cid=21".
Proof.
  apply (C8_first_seen_wins_ties "Tokyo Tower View" ["tokyo"; "tower"; "view"]
           [mapsChunk "Tokyo Dome" "https://maps.google.com/?cid=20"]
           {| GroundingChunk.web := None; GroundingChunk.maps := Some towerShop |} []
           (mapsChunk "Tower Records Tokyo" "https://maps.google.com/?cid=22") []
           towerShop (2 # 3));
    try (vm_compute; reflexivity).
  - intro H; discriminate H.
  - unfold Qle; simpl; lia.
  - intros c s' [<-|[]] H. vm_compute in H. injection H as <-. unfold Qlt; simpl; lia.
  - intros c s' [].
Defined.

(* ================================================================== *)
(** * Further properties of the code *)

(** ** Matcher *)

(** [isSimilarMatch] does not depend on the order of its arguments, and a
    name is always similar to itself. *)
Theorem isSimilarMatch_symmetric_reflexive : forall a b,
  isSimilarMatch a b = isSimilarMatch b a /\ isSimilarMatch a a = true.
Proof.
  intros a b. split.
  - unfold isSimilarMatch.
    rewrite (String.eqb_sym (normalizeString a)), orb_comm, Nat.min_comm, Nat.max_comm.
    reflexivity.
  - unfold isSimilarMatch. rewrite String.eqb_refl. reflexivity.
Qed.

Lemma neighborhoodLoop_some : forall n l u,
  neighborhoodLoop n l = Some u ->
  exists s m, In s l /\ mapsTitle s = Some m /\ GroundingChunk.uri m = u /\
    isNeighborhoodTitle (normalizeString (GroundingChunk.title m)) = true /\
    (String.eqb (normalizeString (GroundingChunk.title m)) n
     || JS.includes (normalizeString (GroundingChunk.title m)) n
     || JS.includes n (normalizeString (GroundingChunk.title m))) = true.
Proof.
  intros n l u. induction l as [|s l IH]; simpl; [discriminate|].
  destruct (mapsTitle s) as [m|] eqn:Hm.
  - destruct ((_ || _ || _) && isNeighborhoodTitle _) eqn:Hc.
    + intro H. injection H as <-. apply andb_prop in Hc as [H1 H2].
      exists s, m. auto 6.
    + intro H. destruct (IH H) as (s' & m' & ? & ?). exists s', m'. tauto.
  - intro H. destruct (IH H) as (s' & m' & ? & ?). exists s', m'. tauto.
Qed.

(** [findNeighborhoodUri] returns either the generated search link of the
    location, or the uri of a titled maps citation whose normalized title is
    related to the normalized location and names no business (no
    "restaurant", "hotel", "cafe", "store" or "museum"). *)
Theorem findNeighborhoodUri_result : forall location sources,
  findNeighborhoodUri location sources = generateNeighborhoodMapsUrl location \/
  exists s m, In s sources /\ mapsTitle s = Some m /\
    findNeighborhoodUri location sources = GroundingChunk.uri m /\
    isNeighborhoodTitle (normalizeString (GroundingChunk.title m)) = true /\
    (String.eqb (normalizeString (GroundingChunk.title m)) (normalizeString location)
     || JS.includes (normalizeString (GroundingChunk.title m)) (normalizeString location)
     || JS.includes (normalizeString location) (normalizeString (GroundingChunk.title m))) = true.
Proof.
  intros location sources. unfold findNeighborhoodUri.
  destruct (neighborhoodLoop _ sources) as [u|] eqn:H; [right|left; reflexivity].
  destruct (neighborhoodLoop_some _ _ _ H) as (s & m & ? & ? & <- & ? & ?).
  exists s, m. auto.
Qed.

(** ** Annotator *)

Lemma or_None_falsy : forall a, JS.truthy a = false -> JS.or a None = None.
Proof. intros a H. unfold JS.or. rewrite H. reflexivity. Qed.

Lemma or_None_idem : forall a, JS.or (JS.or a None) None = JS.or a None.
Proof. intros a. unfold JS.or. destruct (JS.truthy a) eqn:H; rewrite ?H; reflexivity. Qed.

Lemma truthy_or_None : forall a, JS.truthy (JS.or a None) = JS.truthy a.
Proof. intros a. unfold JS.or. destruct (JS.truthy a) eqn:H; [exact H|reflexivity]. Qed.

Lemma matchHotel_idem : forall sources h,
  matchHotel sources (matchHotel sources h) = matchHotel sources h.
Proof.
  intros sources [n d l g]. unfold matchHotel. cbn [Hotel.googleMapsLink Hotel.name].
  destruct (JS.truthy g) eqn:Hg; cbn [negb Hotel.googleMapsLink Hotel.name].
  - rewrite Hg. reflexivity.
  - destruct (JS.truthy (findMatchingUri n sources)); reflexivity.
Qed.

Lemma matchGem_idem : forall sources g,
  matchGem sources (matchGem sources g) = matchGem sources g.
Proof.
  intros sources [n l d link loc]. unfold matchGem.
  cbn [HiddenGem.googleMapsLink HiddenGem.locationUri HiddenGem.name HiddenGem.location].
  destruct (JS.truthy loc) eqn:Hloc.
  - unfold setGem; cbn [HiddenGem.googleMapsLink HiddenGem.locationUri HiddenGem.name
                        HiddenGem.location HiddenGem.description].
    rewrite Hloc, or_None_idem. reflexivity.
  - destruct (JS.truthy link) eqn:Hlink; cbn [negb].
    + unfold setGem; cbn [HiddenGem.googleMapsLink HiddenGem.locationUri HiddenGem.name
                          HiddenGem.location HiddenGem.description].
      rewrite Hloc, truthy_or_None, Hlink, or_None_idem. reflexivity.
    + remember (findMatchingUri n sources) as u eqn:Eu.
      remember (findNeighborhoodUri l sources) as r eqn:Er.
      unfold setGem; cbn [HiddenGem.googleMapsLink HiddenGem.locationUri HiddenGem.name
                          HiddenGem.location HiddenGem.description].
      destruct (JS.truthy (Some r)) eqn:Hr.
      * rewrite ?Hr, ?or_None_idem. reflexivity.
      * rewrite ?Hr, Hloc, truthy_or_None.
        destruct (JS.truthy u) eqn:Hu; cbn [negb].
        -- rewrite or_None_idem. reflexivity.
        -- rewrite <- Eu, <- Er, Hr, !(or_None_falsy u Hu). reflexivity.
Qed.

Lemma matchItem_idem : forall sources i,
  matchItem sources (matchItem sources i) = matchItem sources i.
Proof.
  intros sources [t a l d link loc gem]. unfold matchItem.
  cbn [ItineraryItem.googleMapsLink ItineraryItem.locationUri ItineraryItem.activity
       ItineraryItem.location ItineraryItem.hiddenGem ItineraryItem.time ItineraryItem.description].
  f_equal.
  - remember (findMatchingUri a sources) as f eqn:Ef. clear Ef. unfold JS.or.
    destruct (JS.truthy link) eqn:Hl; [rewrite !Hl; reflexivity|].
    destruct (JS.truthy f) eqn:Hf; rewrite ?Hf; cbn [JS.truthy]; rewrite ?Hf; reflexivity.
  - destruct (JS.truthy (Some (findNeighborhoodUri l sources))); reflexivity.
  - destruct gem as [g|]; [|reflexivity]. cbn [option_map]. rewrite matchGem_idem. reflexivity.
Qed.

(** Annotating an itinerary a second time with the same sources changes
    nothing: [matchSourcesToItinerary] is idempotent. *)
Theorem matchSourcesToItinerary_idempotent : forall itinerary sources,
  matchSourcesToItinerary (matchSourcesToItinerary itinerary sources) sources
  = matchSourcesToItinerary itinerary sources.
Proof.
  intros [tt vc pl hs ds] sources. unfold matchSourcesToItinerary. cbn.
  rewrite !map_map. f_equal.
  - apply map_ext. apply matchHotel_idem.
  - apply map_ext. intros [dn dt items]. unfold matchDay. cbn. rewrite map_map.
    f_equal. apply map_ext. apply matchItem_idem.
Qed.

(** ** Extractor and resolvers *)

Lemma tryCoords_valid : forall m c,
  tryCoords m = Some c -> ((-90 <= fst c <= 90) /\ (-180 <= snd c <= 180))%Q.
Proof.
  intros [[s1 s2]|] c; simpl; [|discriminate].
  destruct (parseFloat s1) as [lat|], (parseFloat s2) as [lng|]; try discriminate.
  destruct (validLatLng lat lng) eqn:Hv; [|discriminate].
  intro H. injection H as <-. apply validLatLng_iff. exact Hv.
Qed.

Local Ltac direct_case H :=
  right; left; destruct (tryCoords_valid _ _ H);
  eexists; eexists; split; [reflexivity|]; eauto.

(** Every result of [extractCoordinatesFromUrl] has one of three shapes:
    nothing, in-range direct coordinates with no geocoding, or no
    coordinates with a geocoding request carrying a query. *)
Theorem extractCoordinatesFromUrl_shape : forall decode url,
  let r := extractCoordinatesFromUrl decode url in
  r = noResult \/
  (exists lat lng, r = direct (lat, lng) /\ ((-90 <= lat <= 90) /\ (-180 <= lng <= 180))%Q) \/
  (CoordinateResult.coordinates r = None /\ CoordinateResult.needsGeocoding r = true /\
   exists q, CoordinateResult.geocodingQuery r = Some q).
Proof.
  intros decode url r. subst r. unfold extractCoordinatesFromUrl.
  destruct (String.eqb url "") eqn:E; [left; reflexivity|].
  destruct (tryCoords (Regex.search Regex.atCoords url)) as [[]|] eqn:H1; [direct_case H1|].
  destruct (tryCoords (Regex.search Regex.qNumeric url)) as [[]|] eqn:H2; [direct_case H2|].
  destruct (tryCoords (Regex.search Regex.llCoords url)) as [[]|] eqn:H3; [direct_case H3|].
  destruct (tryCoords (Regex.search Regex.centerCoords url)) as [[]|] eqn:H4; [direct_case H4|].
  destruct (Regex.search Regex.cidParam url) as [g|].
  { destruct (decode g); [|left; reflexivity]. right; right; simpl; eauto. }
  destruct (Regex.search Regex.placeIdParam url) as [g|].
  { destruct (decode g); [|left; reflexivity]. right; right; simpl; eauto. }
  destruct (Regex.search Regex.queryParam url) as [g|].
  { destruct (decode g); [|left; reflexivity]. right; right; simpl; eauto. }
  destruct (tryCoords (Regex.search Regex.placePath url)) as [[]|] eqn:H8; [direct_case H8|].
  left; reflexivity.
Qed.

(** [getCoordinatesFromUrl] answers with the extracted coordinates without
    any geocoder request when the URL carries them; otherwise it either
    returns [null] without a request or issues exactly one request, only
    when the extractor asked for geocoding, and returns its answer. *)
Theorem getCoordinatesFromUrl_requests : forall decode mapsLoaded geocoder url placeName,
  let r := extractCoordinatesFromUrl decode url in
  let '(reqs, res) := getCoordinatesFromUrl decode mapsLoaded geocoder url placeName in
  match CoordinateResult.coordinates r with
  | Some c => reqs = [] /\ res = Some c
  | None => (reqs = [] /\ res = None) \/
            (CoordinateResult.needsGeocoding r = true /\
             exists req, reqs = [req] /\ res = geocoder req)
  end.
Proof.
  intros decode mapsLoaded geocoder url placeName r. subst r.
  unfold getCoordinatesFromUrl.
  destruct (extractCoordinatesFromUrl decode url) as [co ng gq pid cid].
  cbn [CoordinateResult.coordinates CoordinateResult.needsGeocoding
       CoordinateResult.geocodingQuery].
  destruct co as [c|]; [split; reflexivity|].
  destruct ng; cbn [andb]; [|left; split; reflexivity].
  destruct (JS.truthy gq); [|left; split; reflexivity].
  destruct gq as [q|]; [|left; split; reflexivity].
  unfold geocodeQuery. destruct mapsLoaded; cbn [negb]; [|left; split; reflexivity].
  destruct (JS.startsWith q "cid:"); [|destruct (JS.startsWith q "ChIJ")];
    unfold geocodeOnce; right; split; [reflexivity| eexists; split; reflexivity
                                      | reflexivity | eexists; split; reflexivity
                                      | reflexivity | eexists; split; reflexivity].
Qed.

Lemma extract_firstCoords : forall decode url c,
  url <> "" -> firstCoords url = Some c -> extractCoordinatesFromUrl decode url = direct c.
Proof.
  intros decode url c Hu. unfold firstCoords, extractCoordinatesFromUrl.
  apply String.eqb_neq in Hu. rewrite Hu.
  destruct (tryCoords (Regex.search Regex.atCoords url)); [congruence|].
  destruct (tryCoords (Regex.search Regex.qNumeric url)); [congruence|].
  destruct (tryCoords (Regex.search Regex.llCoords url)); [congruence|].
  destruct (tryCoords (Regex.search Regex.centerCoords url)); congruence.
Qed.

(** The image lookup reads a [place_id=] parameter before anything else:
    such a URL gives the decoded place id, with no geocoder request, even
    when it also carries coordinates, for which [extractCoordinatesFromUrl]
    returns the coordinates instead. *)
Theorem extractPlaceInfo_place_id_first : forall decode mapsLoaded geocoder url activityName g p,
  url <> "" -> Regex.search Regex.placeIdParam url = Some g -> decode g = Some p ->
  extractPlaceInfo decode mapsLoaded geocoder url activityName = ([], Some (PIPlaceId p)) /\
  (forall c, firstCoords url = Some c -> extractCoordinatesFromUrl decode url = direct c).
Proof.
  intros decode mapsLoaded geocoder url activityName g p Hu Hg Hp. split.
  - unfold extractPlaceInfo. rewrite (proj2 (String.eqb_neq _ _) Hu), Hg, Hp. reflexivity.
  - intros c. apply extract_firstCoords. exact Hu.
Qed.

Lemma extract_cid : forall decode url g cid,
  url <> "" -> firstCoords url = None -> Regex.search Regex.cidParam url = Some g ->
  decode g = Some cid ->
  extractCoordinatesFromUrl decode url =
  {| CoordinateResult.coordinates := None; CoordinateResult.needsGeocoding := true;
     CoordinateResult.geocodingQuery := Some ("cid:" ++ cid);
     CoordinateResult.placeId := None; CoordinateResult.cid := Some cid |}.
Proof.
  intros decode url g cid Hu. unfold firstCoords, extractCoordinatesFromUrl.
  apply String.eqb_neq in Hu. rewrite Hu.
  destruct (tryCoords (Regex.search Regex.atCoords url)); [congruence|].
  destruct (tryCoords (Regex.search Regex.qNumeric url)); [congruence|].
  destruct (tryCoords (Regex.search Regex.llCoords url)); [congruence|].
  destruct (tryCoords (Regex.search Regex.centerCoords url)); [congruence|].
  intros _ -> ->. reflexivity.
Qed.

(** The name chosen by [extractPlaceInfo] before calling the resolver:
    [None] when decoding the [/place/] segment throws. *)
Lemma extractPlaceInfo_cid_requests : forall decode geocoder url g cid activityName placeName,
  url <> "" -> Regex.search Regex.placeIdParam url = None -> firstCoords url = None ->
  Regex.search Regex.cidParam url = Some g -> decode g = Some cid ->
  (if negb (JS.truthy activityName) && JS.includes url "/place/" then
     match Regex.search placeSegment url with
     | Some seg => option_map Some (decode (plusToSpace seg))
     | None => Some activityName
     end
   else Some activityName) = placeName ->
  extractPlaceInfo decode true geocoder url activityName
  = match placeName with
    | None => ([], None)
    | Some pn =>
        let nm := match JS.or pn None with Some n => n | None => cid end in
        ([ByAddress nm], option_map PICoordinates (geocoder (ByAddress nm)))
    end.
Proof.
  intros decode geocoder url g cid activityName placeName Hu Hp Hc Hg Hd Hn.
  unfold extractPlaceInfo. rewrite (proj2 (String.eqb_neq _ _) Hu), Hp.
  rewrite (extract_cid decode url g cid Hu Hc Hg Hd). cbn -[JS.includes Regex.search].
  rewrite Hn. destruct placeName as [pn|]; [|reflexivity]. unfold getCoordinatesFromUrl.
  rewrite (extract_cid decode url g cid Hu Hc Hg Hd).
  cbn [CoordinateResult.coordinates CoordinateResult.needsGeocoding
       CoordinateResult.geocodingQuery andb].
  change (JS.truthy (Some ("cid:" ++ cid))) with true.
  unfold geocodeQuery. cbn [negb]. unfold JS.startsWith. rewrite prefix_app.
  rewrite replace_cid_prefix. reflexivity.
Qed.

(** For a [cid] link (no [place_id], no coordinates) the image lookup
    geocodes one address and returns its answer: the activity name when it
    is non-empty.  Without one (absent or empty): the decoded [/place/]
    segment of the URL (with [+] read as a space) when it is non-empty, the
    bare cid number when that segment is empty, missing or not matched; and
    when the segment does not decode, [decodeURIComponent] throws and the
    lookup gives [null] without any request. *)
Theorem extractPlaceInfo_cid_geocodes_name : forall decode geocoder url g cid activityName,
  url <> "" -> Regex.search Regex.placeIdParam url = None -> firstCoords url = None ->
  Regex.search Regex.cidParam url = Some g -> decode g = Some cid ->
  (forall n, activityName = Some n -> n <> "" ->
     extractPlaceInfo decode true geocoder url activityName
     = ([ByAddress n], option_map PICoordinates (geocoder (ByAddress n)))) /\
  (JS.truthy activityName = false ->
   (forall seg nm, JS.includes url "/place/" = true -> Regex.search placeSegment url = Some seg ->
      decode (plusToSpace seg) = Some nm ->
      extractPlaceInfo decode true geocoder url activityName
      = let a := if String.eqb nm "" then cid else nm in
        ([ByAddress a], option_map PICoordinates (geocoder (ByAddress a)))) /\
   (forall seg, JS.includes url "/place/" = true -> Regex.search placeSegment url = Some seg ->
      decode (plusToSpace seg) = None ->
      extractPlaceInfo decode true geocoder url activityName = ([], None)) /\
   (JS.includes url "/place/" = false \/ Regex.search placeSegment url = None ->
      extractPlaceInfo decode true geocoder url activityName
      = ([ByAddress cid], option_map PICoordinates (geocoder (ByAddress cid))))).
Proof.
  intros decode geocoder url g cid activityName Hu Hp Hc Hg Hd. split.
  - intros n -> Hn.
    rewrite (extractPlaceInfo_cid_requests decode geocoder url g cid (Some n) (Some (Some n)));
      try assumption.
    + unfold JS.or, JS.truthy. rewrite (proj2 (String.eqb_neq _ _) Hn). reflexivity.
    + unfold JS.truthy. rewrite (proj2 (String.eqb_neq _ _) Hn). reflexivity.
  - intros Ht. split; [|split].
    + intros seg nm Hi Hs Hnm.
      rewrite (extractPlaceInfo_cid_requests decode geocoder url g cid activityName (Some (Some nm)));
        try assumption.
      * unfold JS.or, JS.truthy. destruct (String.eqb nm ""); reflexivity.
      * rewrite Ht. cbn [negb andb]. rewrite Hi, Hs, Hnm. reflexivity.
    + intros seg Hi Hs Hnm.
      rewrite (extractPlaceInfo_cid_requests decode geocoder url g cid activityName None);
        try assumption; [reflexivity|].
      rewrite Ht. cbn [negb andb]. rewrite Hi, Hs, Hnm. reflexivity.
    + intros Hor.
      rewrite (extractPlaceInfo_cid_requests decode geocoder url g cid activityName (Some activityName));
        try assumption.
      * rewrite (or_falsy_None _ Ht). reflexivity.
      * rewrite Ht. cbn [negb andb].
        destruct Hor as [Hi | Hs]; [rewrite Hi; reflexivity|].
        destruct (JS.includes url "/place/"); [rewrite Hs|]; reflexivity.
Qed.

Lemma includes_empty : forall s, JS.includes s "" = true.
Proof. intros [|c s]; reflexivity. Qed.

Lemma looseMatch_empty_l : forall t, looseMatch "" t = true.
Proof. intros t. unfold looseMatch. rewrite (includes_empty t). apply orb_true_r. Qed.

Lemma looseMatch_empty_r : forall a, looseMatch a "" = true.
Proof. intros a. unfold looseMatch. rewrite (includes_empty a). rewrite orb_true_r. reflexivity. Qed.

(** [findMatchingSource] lets an empty name match anything: an activity
    name that is blank after lower-casing and trimming selects the first
    source with a non-empty maps or web title; and a source whose maps title
    is non-empty but blank after trimming is selected for every activity. *)
Theorem findMatchingSource_blank : forall activityName sources,
  (trim (JS.toLowerCase activityName) = "" ->
   findMatchingSource activityName sources =
   find (fun s => JS.truthy (option_map GroundingChunk.title (GroundingChunk.maps s))
               || JS.truthy (option_map GroundingChunk.web_title (GroundingChunk.web s))) sources) /\
  (forall s m rest, GroundingChunk.maps s = Some m -> GroundingChunk.title m <> "" ->
   trim (JS.toLowerCase (GroundingChunk.title m)) = "" ->
   findMatchingSource activityName (s :: rest) = Some s).
Proof.
  intros activityName sources. split.
  - unfold findMatchingSource. intros ->. induction sources as [|s rest IH]; [reflexivity|].
    cbn [findMatchingSource_loop find]. rewrite IH.
    destruct (GroundingChunk.maps s) as [m|], (GroundingChunk.web s) as [w|];
      cbn [option_map]; rewrite ?looseMatch_empty_l, ?andb_true_r; reflexivity.
  - intros s m rest Hm Ht Hb. unfold findMatchingSource. cbn [findMatchingSource_loop].
    rewrite Hm, Hb, looseMatch_empty_r. unfold JS.truthy.
    rewrite (proj2 (String.eqb_neq _ _) Ht). reflexivity.
Qed.

(** ** Invite codes and passcodes *)

Lemma toUpperCase_app : forall a b, toUpperCase (a ++ b) = (toUpperCase a ++ toUpperCase b)%list.
Proof.
  induction a as [|c a IH]; intros b; [reflexivity|]. simpl. rewrite IH, app_assoc. reflexivity.
Qed.

Lemma Qfloor_index : forall r, (0 <= r)%Q -> (r < 1)%Q ->
  (0 <= Qfloor (r * inject_Z 36) < 36)%Z.
Proof.
  intros r H0 H1.
  assert (Hlo : (0 <= r * inject_Z 36)%Q).
  { apply Qmult_le_0_compat; [exact H0|unfold Qle; simpl; lia]. }
  assert (Hhi : (r * inject_Z 36 < inject_Z 36)%Q).
  { rewrite <- (Qmult_1_l (inject_Z 36)) at 2. apply Qmult_lt_r; [reflexivity|exact H1]. }
  split.
  - apply Qfloor_resp_le in Hlo. change (Qfloor 0) with 0%Z in Hlo. exact Hlo.
  - pose proof (Qfloor_le (r * inject_Z 36)) as Hf.
    assert (H : (inject_Z (Qfloor (r * inject_Z 36)) < inject_Z 36)%Q)
      by (eapply Qle_lt_trans; eassumption).
    rewrite <- Zlt_Qlt in H. exact H.
Qed.

Lemma charAt_inviteChars : forall z, (0 <= z < 36)%Z ->
  exists u, toUpperCase (charAt inviteChars z) = [u] /\ upperAlnumUnit u = true.
Proof.
  intros z Hz. replace z with (Z.of_nat (Z.to_nat z)) by lia.
  assert (Hk : (Z.to_nat z < 36)%nat) by lia.
  generalize (Z.to_nat z) Hk. clear z Hz Hk. intros k Hk.
  do 36 (destruct k as [|k]; [eexists; split; vm_compute; reflexivity|]). lia.
Qed.

Lemma inviteLoop_units : forall random, (forall i, (0 <= random i)%Q /\ (random i < 1)%Q) ->
  forall n i code,
  List.length (toUpperCase (inviteLoop random i n code)) = (List.length (toUpperCase code) + n)%nat /\
  forallb upperAlnumUnit (toUpperCase (inviteLoop random i n code))
  = forallb upperAlnumUnit (toUpperCase code).
Proof.
  intros random Hr n. induction n as [|n IH]; intros i code; cbn [inviteLoop].
  - split; [lia|reflexivity].
  - destruct (IH (S i) (code ++ charAt inviteChars
                 (Qfloor (random i * inject_Z (Z.of_nat (String.length inviteChars)))))%string)
      as [IH1 IH2].
    rewrite IH1, IH2, toUpperCase_app, length_app, forallb_app.
    change (Z.of_nat (String.length inviteChars)) with 36%Z.
    destruct (Hr i) as [H0 H1].
    destruct (charAt_inviteChars _ (Qfloor_index _ H0 H1)) as (u & -> & Hu).
    simpl. rewrite Hu. split; [lia|]. rewrite andb_true_r. reflexivity.
Qed.

(** Every code [generateInviteCode] can produce passes [validateInviteCode],
    whatever values in [[0, 1)] [Math.random()] returns. *)
Theorem generateInviteCode_valid : forall random,
  (forall i, (0 <= random i)%Q /\ (random i < 1)%Q) ->
  validateInviteCode (generateInviteCode random) = true.
Proof.
  intros random Hr. unfold validateInviteCode, generateInviteCode.
  destruct (inviteLoop_units random Hr 6 0 EmptyString) as [H1 H2].
  rewrite H1, H2. reflexivity.
Qed.

Lemma upperUnits_lower : forall c, upperUnits (JS.lower c) = upperUnits c.
Proof. intros [[] [] [] [] [] [] [] []]; vm_compute; reflexivity. Qed.

Lemma toUpperCase_lower : forall s, toUpperCase (JS.toLowerCase s) = toUpperCase s.
Proof. induction s as [|c s IH]; [reflexivity|]. simpl. rewrite upperUnits_lower, IH. reflexivity. Qed.

Lemma upperUnits_ascii : forall c, (JS.code c < 128)%nat ->
  forallb upperAlnumUnit (upperUnits c) = isAlnum c /\ List.length (upperUnits c) = 1%nat.
Proof.
  intros [[] [] [] [] [] [] [] []] H;
    first [ split; vm_compute; reflexivity | vm_compute in H; lia ].
Qed.

(** On ASCII input invite codes are case-insensitive: lower-casing a code
    never changes whether it is valid, and a code is valid exactly when it
    has 6 to 8 characters, all letters or digits. *)
Theorem validateInviteCode_case_insensitive : forall code,
  (forall c, In c (list_ascii_of_string code) -> (JS.code c < 128)%nat) ->
  validateInviteCode (JS.toLowerCase code) = validateInviteCode code /\
  validateInviteCode code =
  ((6 <=? String.length code) && (String.length code <=? 8))%nat
  && forallb isAlnum (list_ascii_of_string code).
Proof.
  intros code Ha. split.
  - unfold validateInviteCode. rewrite toUpperCase_lower. reflexivity.
  - unfold validateInviteCode.
    assert (H : forallb upperAlnumUnit (toUpperCase code) = forallb isAlnum (list_ascii_of_string code)
                /\ List.length (toUpperCase code) = String.length code).
    { induction code as [|c s IH]; [split; reflexivity|].
      simpl in Ha |- *.
      destruct (upperUnits_ascii c (Ha c (or_introl eq_refl))) as [E1 E2].
      destruct (IH (fun c' H => Ha c' (or_intror H))) as [F1 F2].
      rewrite forallb_app, E1, F1, length_app, E2, F2. split; reflexivity. }
    destruct H as [-> ->]. reflexivity.
Qed.

Lemma allPlus_digit_alnum : forall s, allPlus isDigit s = true -> allPlus isAlnum s = true.
Proof.
  intros s. unfold allPlus. rewrite !andb_true_iff, !forallb_forall.
  intros [Hn H]. split; [exact Hn|]. intros c Hc. specialize (H c Hc).
  unfold isDigit, isAlnum in *. rewrite H. reflexivity.
Qed.

(** A passcode is valid exactly when it has 4 to 6 characters, all ASCII
    letters or digits (the digits-only test adds nothing); a length outside
    4-6 is reported as such, whatever the characters. *)
Theorem validatePasscode_spec : forall passcode,
  PasscodeValidation.valid (validatePasscode passcode) =
  ((4 <=? String.length passcode) && (String.length passcode <=? 6))%nat
  && forallb isAlnum (list_ascii_of_string passcode) /\
  ((String.length passcode < 4)%nat \/ (6 < String.length passcode)%nat ->
   validatePasscode passcode =
   {| PasscodeValidation.valid := false;
      PasscodeValidation.error := Some "Passcode must be 4-6 characters long" |}).
Proof.
  intros p. unfold validatePasscode. split.
  - destruct (String.eqb p "") eqn:He.
    { apply String.eqb_eq in He. subst p. reflexivity. }
    destruct (String.length p <? 4)%nat eqn:H4.
    { apply Nat.ltb_lt in H4. cbn [orb PasscodeValidation.valid].
      replace (4 <=? String.length p)%nat with false by (symmetry; apply Nat.leb_gt; lia).
      reflexivity. }
    destruct (6 <? String.length p)%nat eqn:H6.
    { apply Nat.ltb_lt in H6. cbn [orb PasscodeValidation.valid].
      replace (String.length p <=? 6)%nat with false by (symmetry; apply Nat.leb_gt; lia).
      rewrite andb_false_r. reflexivity. }
    apply Nat.ltb_ge in H4. apply Nat.ltb_ge in H6. cbn [orb].
    replace (4 <=? String.length p)%nat with true by (symmetry; apply Nat.leb_le; lia).
    replace (String.length p <=? 6)%nat with true by (symmetry; apply Nat.leb_le; lia).
    cbn [andb].
    assert (Ha : allPlus isAlnum p = forallb isAlnum (list_ascii_of_string p))
      by (unfold allPlus; rewrite He; reflexivity).
    destruct (allPlus isDigit p) eqn:Hd.
    + rewrite <- Ha, (allPlus_digit_alnum p Hd). reflexivity.
    + rewrite <- Ha. destruct (allPlus isAlnum p); reflexivity.
  - intros H. destruct H as [H|H].
    + apply Nat.ltb_lt in H. rewrite H, orb_true_r. reflexivity.
    + apply Nat.ltb_lt in H. rewrite H, !orb_true_r. reflexivity.
Qed.

(** ** Preference aggregation *)

Lemma existsb_eqb_in : forall x seen, existsb (String.eqb x) seen = true <-> In x seen.
Proof.
  intros x seen. rewrite existsb_exists. split.
  - intros (y & Hy & E). apply String.eqb_eq in E. subst y. exact Hy.
  - intros H. exists x. split; [exact H|apply String.eqb_refl].
Qed.

Lemma uniqFrom_in : forall l seen x, In x (uniqFrom seen l) <-> In x l /\ ~ In x seen.
Proof.
  induction l as [|y l IH]; intros seen x; simpl; [tauto|].
  destruct (existsb (String.eqb y) seen) eqn:E.
  - apply existsb_eqb_in in E. rewrite IH. split; [tauto|].
    intros [[<-|H] Hn]; [contradiction|tauto].
  - simpl. rewrite IH. simpl.
    assert (Hy : ~ In y seen) by (intro H; apply existsb_eqb_in in H; congruence).
    split; [intros [<-|[H1 H2]]; tauto|].
    intros [[<-|H] Hn]; [left; reflexivity|].
    destruct (String.eqb_spec y x) as [<-|Hne]; [left; reflexivity|right; split; [exact H|]].
    intros [E'|E']; [exact (Hne E')|exact (Hn E')].
Qed.

Lemma uniqFrom_nodup : forall l seen, NoDup (uniqFrom seen l).
Proof.
  induction l as [|y l IH]; intros seen; simpl; [constructor|].
  destruct (existsb (String.eqb y) seen); [apply IH|].
  constructor; [|apply IH]. rewrite uniqFrom_in. simpl. tauto.
Qed.

Lemma uniqFrom_ext : forall l s1 s2, (forall y, In y s1 <-> In y s2) ->
  uniqFrom s1 l = uniqFrom s2 l.
Proof.
  induction l as [|y l IH]; intros s1 s2 H; simpl; [reflexivity|].
  assert (E : existsb (String.eqb y) s1 = existsb (String.eqb y) s2).
  { destruct (existsb (String.eqb y) s1) eqn:E1, (existsb (String.eqb y) s2) eqn:E2;
      try reflexivity; rewrite existsb_eqb_in in *.
    - exfalso. apply (proj2 (not_true_iff_false _) E2). apply existsb_eqb_in, H, E1.
    - exfalso. apply (proj2 (not_true_iff_false _) E1). apply existsb_eqb_in, H, E2. }
  rewrite E. destruct (existsb (String.eqb y) s2); [apply IH, H|].
  f_equal. apply IH. intros z. simpl. rewrite H. reflexivity.
Qed.

Lemma uniqFrom_covered : forall l seen, (forall y, In y l -> In y seen) -> uniqFrom seen l = [].
Proof.
  induction l as [|y l IH]; intros seen H; simpl; [reflexivity|].
  rewrite (proj2 (existsb_eqb_in y seen) (H y (or_introl eq_refl))).
  apply IH. intros z Hz. apply H. right. exact Hz.
Qed.

Lemma uniqFrom_app : forall l l' seen,
  uniqFrom seen (l ++ l') = (uniqFrom seen l ++ uniqFrom (l ++ seen) l')%list.
Proof.
  induction l as [|y l IH]; intros l' seen; simpl; [reflexivity|].
  destruct (existsb (String.eqb y) seen) eqn:E.
  - rewrite IH. f_equal. apply uniqFrom_ext. intros z. simpl. rewrite !in_app_iff.
    apply existsb_eqb_in in E. split; [tauto|]. intros [<-|H]; tauto.
  - simpl. rewrite IH. f_equal. f_equal. apply uniqFrom_ext. intros z.
    simpl. rewrite !in_app_iff. simpl. tauto.
Qed.

Lemma filterTruthy_in : forall (f : MemberPreferences.t -> list string) prefs x,
  In x (filterTruthy (flat_map f prefs)) <-> exists p, In p prefs /\ In x (f p) /\ x <> "".
Proof.
  intros f prefs x. unfold filterTruthy. rewrite filter_In, in_flat_map, negb_true_iff.
  split.
  - intros [(p & Hp & Hx) E]. exists p. repeat split; try assumption.
    apply String.eqb_neq, E.
  - intros (p & Hp & Hx & E). split; [exists p; tauto|]. apply String.eqb_neq, E.
Qed.

Lemma aggregateList_spec : forall members base, members <> [] ->
  exists L, aggregateList members base = joinComma L /\ NoDup L /\
    (forall x, In x L <-> (x = base /\ base <> "") \/ In x members) /\
    (base <> "" -> hd_error L = Some base).
Proof.
  intros members base Hm. unfold aggregateList.
  destruct members as [|m ms] eqn:Em; [congruence|]. rewrite <- Em.
  exists (uniq (if negb (String.eqb base "") then base :: members else members)).
  split; [reflexivity|]. split; [apply uniqFrom_nodup|]. split.
  - intros x. unfold uniq. rewrite uniqFrom_in.
    destruct (String.eqb_spec base "") as [Eb|Eb]; simpl.
    + split; [tauto|]. intros [[_ H]|H]; [contradiction|tauto].
    + split; [intros [[<-|H] _]; [left; tauto|right; exact H]|].
      intros [[<- _]|H]; split; auto.
  - intros Hb. apply String.eqb_neq in Hb. rewrite Hb. reflexivity.
Qed.

Lemma aggregateList_field : forall (f : MemberPreferences.t -> option (list string)) prefs base,
  ((forall p x, In p prefs -> In x (orEmpty (f p)) -> x = "") ->
   aggregateList (filterTruthy (flat_map (fun p => orEmpty (f p)) prefs)) base = base) /\
  ((exists p x, In p prefs /\ In x (orEmpty (f p)) /\ x <> "") ->
   exists L, aggregateList (filterTruthy (flat_map (fun p => orEmpty (f p)) prefs)) base
             = joinComma L /\ NoDup L /\
     (forall x, In x L <-> (x = base /\ base <> "") \/
                           exists p, In p prefs /\ In x (orEmpty (f p)) /\ x <> "") /\
     (base <> "" -> hd_error L = Some base)).
Proof.
  intros f prefs base. split.
  - intros H. destruct (filterTruthy _) as [|x r] eqn:E; [reflexivity|].
    assert (Hx : In x (filterTruthy (flat_map (fun p => orEmpty (f p)) prefs)))
      by (rewrite E; left; reflexivity).
    apply filterTruthy_in in Hx as (p & Hp & Hx & Hne). exfalso. exact (Hne (H p x Hp Hx)).
  - intros (p & x & Hp & Hx & Hne).
    assert (Hm : filterTruthy (flat_map (fun p => orEmpty (f p)) prefs) <> []).
    { intros E.
      assert (Hin : In x (filterTruthy (flat_map (fun p => orEmpty (f p)) prefs)))
        by (apply filterTruthy_in; exists p; tauto).
      rewrite E in Hin. exact Hin. }
    destruct (aggregateList_spec _ base Hm) as (L & E & Hn & Hi & Hh).
    exists L. split; [exact E|]. split; [exact Hn|]. split; [|exact Hh].
    intros y. rewrite Hi, filterTruthy_in. reflexivity.
Qed.

(** [aggregateMustDo]: with no non-empty member must-do the base text is
    returned as it is; otherwise the result is the [", "]-join of a
    duplicate-free list holding exactly the base (when non-empty) and the
    non-empty member must-dos, with the base first. *)
Theorem aggregateMustDo_merge : forall prefs base,
  ((forall p x, In p prefs -> In x (orEmpty (MemberPreferences.mustDo p)) -> x = "") ->
   aggregateMustDo prefs base = base) /\
  ((exists p x, In p prefs /\ In x (orEmpty (MemberPreferences.mustDo p)) /\ x <> "") ->
   exists L, aggregateMustDo prefs base = joinComma L /\ NoDup L /\
     (forall x, In x L <-> (x = base /\ base <> "") \/
        exists p, In p prefs /\ In x (orEmpty (MemberPreferences.mustDo p)) /\ x <> "") /\
     (base <> "" -> hd_error L = Some base)).
Proof. intros prefs base. apply (aggregateList_field MemberPreferences.mustDo). Qed.

(** [aggregateVeto] merges the same way as [aggregateMustDo], over the
    members' veto lists. *)
Theorem aggregateVeto_merge : forall prefs base,
  ((forall p x, In p prefs -> In x (orEmpty (MemberPreferences.veto p)) -> x = "") ->
   aggregateVeto prefs base = base) /\
  ((exists p x, In p prefs /\ In x (orEmpty (MemberPreferences.veto p)) /\ x <> "") ->
   exists L, aggregateVeto prefs base = joinComma L /\ NoDup L /\
     (forall x, In x L <-> (x = base /\ base <> "") \/
        exists p, In p prefs /\ In x (orEmpty (MemberPreferences.veto p)) /\ x <> "") /\
     (base <> "" -> hd_error L = Some base)).
Proof. intros prefs base. apply (aggregateList_field MemberPreferences.veto). Qed.

Lemma filterTruthy_nil : forall (f : MemberPreferences.t -> list string) prefs,
  (forall p x, In p prefs -> In x (f p) -> x = "") -> filterTruthy (flat_map f prefs) = [].
Proof.
  intros f prefs H. destruct (filterTruthy (flat_map f prefs)) as [|x r] eqn:E; [reflexivity|].
  assert (Hx : In x (filterTruthy (flat_map f prefs))) by (rewrite E; left; reflexivity).
  apply filterTruthy_in in Hx as (p & Hp & Hx & Hne). exfalso. exact (Hne (H p x Hp Hx)).
Qed.

(** [aggregateGroupVibe] without any non-empty budget, interest or dietary
    entry returns the trimmed base vibe, or the base vibe untouched when it
    is blank (a whitespace-only base comes back as it is). *)
Theorem aggregateGroupVibe_no_entries : forall prefs baseVibe,
  (forall p, In p prefs ->
     (forall b, MemberPreferences.budget p = Some b -> b = "") /\
     (forall x, In x (orEmpty (MemberPreferences.interests p)) -> x = "") /\
     (forall x, In x (orEmpty (MemberPreferences.dietary p)) -> x = "")) ->
  aggregateGroupVibe prefs baseVibe =
  if String.eqb (trim baseVibe) "" then baseVibe else trim baseVibe.
Proof.
  intros prefs baseVibe H. unfold aggregateGroupVibe.
  rewrite (filterTruthy_nil (fun p => match MemberPreferences.budget p with
                                      | Some b => [b] | None => [] end)).
  2:{ intros p x Hp Hx. destruct (MemberPreferences.budget p) eqn:Eb; [|destruct Hx].
      destruct Hx as [<-|[]]. exact (proj1 (H p Hp) _ Eb). }
  rewrite (filterTruthy_nil (fun p => orEmpty (MemberPreferences.interests p))).
  2:{ intros p x Hp Hx. exact (proj1 (proj2 (H p Hp)) x Hx). }
  rewrite (filterTruthy_nil (fun p => orEmpty (MemberPreferences.dietary p))).
  2:{ intros p x Hp Hx. exact (proj2 (proj2 (H p Hp)) x Hx). }
  destruct (String.eqb (trim baseVibe) ""); reflexivity.
Qed.

Lemma section_redundant : forall F F' agg label,
  (forall y, In y F' -> In y F) ->
  match (F ++ F')%list with
  | [] => agg
  | _ => appendSection agg label (joinComma (uniq (F ++ F')))
  end =
  match F with
  | [] => agg
  | _ => appendSection agg label (joinComma (uniq F))
  end.
Proof.
  intros F F' agg label H. destruct F as [|a F].
  - destruct F' as [|b F']; [reflexivity|]. destruct (H b (or_introl eq_refl)).
  - unfold uniq. rewrite (uniqFrom_app (a :: F) F' []).
    rewrite (uniqFrom_covered F'); [rewrite app_nil_r; reflexivity|].
    intros y Hy. rewrite app_nil_r. exact (H y Hy).
Qed.

Lemma filterTruthy_app : forall l l', filterTruthy (l ++ l') = (filterTruthy l ++ filterTruthy l')%list.
Proof. intros l l'. apply filter_app. Qed.

(** A member who adds no budget and only interests and dietary entries
    already listed by the others does not change the group vibe: the
    interest and dietary lists are deduplicated. *)
Theorem aggregateGroupVibe_redundant_member : forall prefs p' baseVibe,
  (forall b, MemberPreferences.budget p' = Some b -> b = "") ->
  (forall x, In x (orEmpty (MemberPreferences.interests p')) ->
     x = "" \/ exists p, In p prefs /\ In x (orEmpty (MemberPreferences.interests p))) ->
  (forall x, In x (orEmpty (MemberPreferences.dietary p')) ->
     x = "" \/ exists p, In p prefs /\ In x (orEmpty (MemberPreferences.dietary p))) ->
  aggregateGroupVibe (prefs ++ [p'])%list baseVibe = aggregateGroupVibe prefs baseVibe.
Proof.
  intros prefs p' baseVibe Hb Hi Hd. unfold aggregateGroupVibe.
  rewrite !flat_map_app, !filterTruthy_app. cbn [flat_map].
  rewrite !app_nil_r.
  replace (filterTruthy match MemberPreferences.budget p' with Some b => [b] | None => [] end)
    with (@nil string).
  2:{ destruct (MemberPreferences.budget p') eqn:E; [|reflexivity].
      rewrite (Hb s eq_refl). reflexivity. }
  rewrite app_nil_r.
  rewrite section_redundant.
  2:{ intros y Hy. unfold filterTruthy in Hy. apply filter_In in Hy as [Hy Hne].
      destruct (Hd y Hy) as [->|(p & Hp & Hx)]; [discriminate|].
      apply filterTruthy_in. exists p. split; [exact Hp|split; [exact Hx|]].
      intro E. subst y. discriminate. }
  rewrite section_redundant.
  2:{ intros y Hy. unfold filterTruthy in Hy. apply filter_In in Hy as [Hy Hne].
      destruct (Hi y Hy) as [->|(p & Hp & Hx)]; [discriminate|].
      apply filterTruthy_in. exists p. split; [exact Hp|split; [exact Hx|]].
      intro E. subst y. discriminate. }
  reflexivity.
Qed.

(** ** Firestore payload cleaning *)

Lemma jvalue_ind_nested (P : jvalue -> Prop)
  (HU : P JUndefined) (HN : P JNull) (HB : forall b, P (JBool b)) (HQ : forall q, P (JNum q))
  (HS : forall s, P (JStr s)) (HA : forall items, Forall P items -> P (JArr items))
  (HO : forall entries, Forall (fun e => P (snd e)) entries -> P (JObj entries))
  (HI : forall entries, Forall (fun e => P (snd e)) entries -> P (JInst entries)) :
  forall v, P v.
Proof.
  exact (fix F (v : jvalue) : P v :=
    let G := fix G (l : list (string * jvalue)) : Forall (fun e => P (snd e)) l :=
               match l with
               | [] => Forall_nil _
               | e :: r => @Forall_cons _ (fun e => P (snd e)) e r (F (snd e)) (G r)
               end in
    match v with
    | JUndefined => HU
    | JNull => HN
    | JBool b => HB b
    | JNum q => HQ q
    | JStr s => HS s
    | JArr items =>
        HA items ((fix G (l : list jvalue) : Forall P l :=
                     match l with
                     | [] => Forall_nil P
                     | x :: r => Forall_cons x (F x) (G r)
                     end) items)
    | JObj entries => HO entries (G entries)
    | JInst entries => HI entries (G entries)
    end).
Qed.

Lemma removeUndefined_not_undefined : forall v, v <> JUndefined -> removeUndefined v <> JUndefined.
Proof. intros [] H; simpl; congruence. Qed.

(** The object case of [removeUndefined], from the property of the values. *)
Lemma removeUndefined_entries : forall entries,
  Forall (fun e =>
    (snd e <> JUndefined -> noUndefined (removeUndefined (snd e)) = true) /\
    isPlain (removeUndefined (snd e)) = true /\
    removeUndefined (removeUndefined (snd e)) = removeUndefined (snd e) /\
    (isPlain (snd e) = true -> noUndefined (snd e) = true -> removeUndefined (snd e) = snd e))
    entries ->
  noUndefined (removeUndefined (JObj entries)) = true /\
  isPlain (removeUndefined (JObj entries)) = true /\
  removeUndefined (removeUndefined (JObj entries)) = removeUndefined (JObj entries) /\
  (isPlain (JObj entries) = true -> noUndefined (JObj entries) = true ->
   removeUndefined (JObj entries) = JObj entries).
Proof.
  induction entries as [|[k x] r IH]; intros H; [simpl; repeat split; intros; reflexivity|].
  inversion H as [|? ? Hx Hr]; subst. cbn [snd] in Hx. destruct (IH Hr) as (I1 & I2 & I3 & I4).
  destruct (isUndefined x) eqn:Ex.
  - destruct x; try discriminate. simpl in I1, I2, I3, I4 |- *.
    split; [exact I1|]. split; [exact I2|]. split; [exact I3|]. intros _ Hn. discriminate Hn.
  - destruct Hx as (H1 & H2 & H3 & H4).
    assert (Hxu : x <> JUndefined) by (intro E; subst; discriminate).
    simpl in I1, I2, I3, I4 |- *. rewrite Ex. split; [|split; [|split]].
    + rewrite (H1 Hxu). exact I1.
    + rewrite H2. exact I2.
    + destruct (isUndefined (removeUndefined x)) eqn:Er.
      { exfalso. apply (removeUndefined_not_undefined x Hxu). destruct (removeUndefined x);
          try discriminate; reflexivity. }
      rewrite H3. injection I3 as ->. reflexivity.
    + intros Hp Hn. apply andb_prop in Hp as [Hp1 Hp2]. apply andb_prop in Hn as [Hn1 Hn2].
      rewrite (H4 Hp1 Hn1). injection (I4 Hp2 Hn2) as ->. reflexivity.
Qed.

Lemma removeUndefined_props : forall v,
  (v <> JUndefined -> noUndefined (removeUndefined v) = true) /\
  isPlain (removeUndefined v) = true /\
  removeUndefined (removeUndefined v) = removeUndefined v /\
  (isPlain v = true -> noUndefined v = true -> removeUndefined v = v).
Proof.
  apply jvalue_ind_nested; try (intros; simpl; repeat split; congruence).
  - intros items H. rewrite Forall_forall in H. simpl. split; [|split; [|split]].
    + intros _. apply forallb_forall. intros x Hx.
      apply filter_In in Hx as [Hx Hd]. apply in_map_iff in Hx as (y & <- & Hy).
      apply H; [exact Hy|]. intro E. subst y. discriminate.
    + apply forallb_forall. intros x Hx.
      apply filter_In in Hx as [Hx _]. apply in_map_iff in Hx as (y & <- & Hy). apply H, Hy.
    + f_equal. set (L := filter _ (map removeUndefined items)).
      assert (HL : forall x, In x L -> removeUndefined x = x /\ isUndefined x = false).
      { intros x Hx. apply filter_In in Hx as [Hx Hd]. apply in_map_iff in Hx as (y & <- & Hy).
        split; [apply (proj1 (proj2 (proj2 (H y Hy))))|apply negb_true_iff, Hd]. }
      transitivity (filter (fun i => negb (isUndefined i)) L).
      * f_equal. rewrite <- (map_id L) at 2. apply map_ext_in. intros x Hx. apply HL, Hx.
      * apply forallb_filter_id, forallb_forall. intros x Hx.
        rewrite (proj2 (HL x Hx)). reflexivity.
    + intros Hp Hn. f_equal. rewrite forallb_forall in Hp, Hn.
      transitivity (filter (fun i => negb (isUndefined i)) items).
      * f_equal. rewrite <- (map_id items) at 2. apply map_ext_in.
        intros y Hy. apply (proj2 (proj2 (proj2 (H y Hy)))); [apply Hp | apply Hn]; exact Hy.
      * apply forallb_filter_id. apply forallb_forall. intros y Hy.
        specialize (Hn y Hy). destruct y; try reflexivity; discriminate.
  - intros entries H. destruct (removeUndefined_entries entries H) as (A & B & C & D).
    split; [intros _; exact A | auto].
  - intros entries H. destruct (removeUndefined_entries entries H) as (A & B & C & _).
    change (removeUndefined (JInst entries)) with (removeUndefined (JObj entries)).
    split; [intros _; exact A|]. split; [exact B|]. split; [exact C|].
    intros Hp. discriminate Hp.
Qed.

(** [removeUndefined] leaves no [undefined] anywhere inside a value that
    is not itself [undefined], and returns plain data only: every non-array
    object, a class instance included, comes back as a plain object built
    from its own enumerable entries.  It is idempotent, and returns a plain
    value without [undefined] as an equal copy. *)
Theorem removeUndefined_clean : forall v,
  (v <> JUndefined -> noUndefined (removeUndefined v) = true) /\
  isPlain (removeUndefined v) = true /\
  removeUndefined (removeUndefined v) = removeUndefined v /\
  (isPlain v = true -> noUndefined v = true -> removeUndefined v = v).
Proof. exact removeUndefined_props. Qed.

(** The object case of [undefinedToNull]. *)
Lemma undefinedToNull_entries : forall entries,
  Forall (fun e =>
    noUndefined (undefinedToNull (snd e)) = true /\ isPlain (undefinedToNull (snd e)) = true /\
    shapeOf (undefinedToNull (snd e)) = shapeOf (snd e) /\
    (isPlain (snd e) = true -> noUndefined (snd e) = true -> undefinedToNull (snd e) = snd e))
    entries ->
  noUndefined (undefinedToNull (JObj entries)) = true /\
  isPlain (undefinedToNull (JObj entries)) = true /\
  shapeOf (undefinedToNull (JObj entries)) = shapeOf (JObj entries) /\
  (isPlain (JObj entries) = true -> noUndefined (JObj entries) = true ->
   undefinedToNull (JObj entries) = JObj entries).
Proof.
  induction entries as [|[k x] r IH]; intros H; [simpl; repeat split; intros; reflexivity|].
  inversion H as [|? ? Hx Hr]; subst. cbn [snd] in Hx. destruct (IH Hr) as (I1 & I2 & I3 & I4).
  destruct Hx as (H1 & H2 & H3 & H4).
  simpl in I1, I2, I3, I4 |- *. split; [|split; [|split]].
  - rewrite H1. exact I1.
  - rewrite H2. exact I2.
  - rewrite H3. injection I3 as ->. reflexivity.
  - intros Hp Hn. apply andb_prop in Hp as [Hp1 Hp2]. apply andb_prop in Hn as [Hn1 Hn2].
    rewrite (H4 Hp1 Hn1). injection (I4 Hp2 Hn2) as ->. reflexivity.
Qed.

(** [undefinedToNull] leaves no [undefined] anywhere and returns plain data
    only (a class instance comes back as a plain object built from its own
    enumerable entries); it keeps every array length and every object key
    (the shape of the value), and returns a plain value without
    [undefined] as an equal copy. *)
Theorem undefinedToNull_clean : forall v,
  noUndefined (undefinedToNull v) = true /\ isPlain (undefinedToNull v) = true /\
  shapeOf (undefinedToNull v) = shapeOf v /\
  (isPlain v = true -> noUndefined v = true -> undefinedToNull v = v).
Proof.
  apply jvalue_ind_nested; try (intros; simpl; repeat split; congruence).
  - intros items H. rewrite Forall_forall in H. simpl. split; [|split; [|split]].
    + apply forallb_forall. intros x Hx. apply in_map_iff in Hx as (y & <- & Hy).
      apply (H y Hy).
    + apply forallb_forall. intros x Hx. apply in_map_iff in Hx as (y & <- & Hy).
      apply (H y Hy).
    + f_equal. rewrite map_map. apply map_ext_in. intros y Hy. apply (H y Hy).
    + intros Hp Hn. rewrite forallb_forall in Hp, Hn. f_equal.
      rewrite <- (map_id items) at 2. apply map_ext_in.
      intros y Hy. apply (proj2 (proj2 (proj2 (H y Hy)))); [apply Hp | apply Hn]; exact Hy.
  - intros entries H. exact (undefinedToNull_entries entries H).
  - intros entries H. destruct (undefinedToNull_entries entries H) as (A & B & C & _).
    change (undefinedToNull (JInst entries)) with (undefinedToNull (JObj entries)).
    change (shapeOf (JInst entries)) with (shapeOf (JObj entries)).
    split; [exact A|]. split; [exact B|]. split; [exact C|].
    intros Hp. discriminate Hp.
Qed.

(** ** URI encoding and the neighborhood search links *)

Lemma encodeURIComponent_cons : forall c s,
  encodeURIComponent (String c s) = encodeChar c ++ encodeURIComponent s.
Proof. reflexivity. Qed.

Lemma decode_encodeChar : forall c rest,
  decodeURIComponentL1 (encodeChar c ++ rest) = option_map (String c) (decodeURIComponentL1 rest).
Proof. intros [[] [] [] [] [] [] [] []] rest; reflexivity. Qed.

Lemma append_assoc_str : forall a b c : string, (a ++ b) ++ c = a ++ (b ++ c).
Proof. induction a as [|x a IH]; intros b c; simpl; [reflexivity|]. rewrite IH. reflexivity. Qed.

(** [decodeURIComponent] undoes [encodeURIComponent] on every string. *)
Theorem decode_encodeURIComponent : forall s,
  decodeURIComponentL1 (encodeURIComponent s) = Some s.
Proof.
  induction s as [|c s IH]; [reflexivity|].
  rewrite encodeURIComponent_cons, decode_encodeChar, IH. reflexivity.
Qed.

Lemma patternFree_app : forall a b, patternFree (a ++ b) = patternFree a && patternFree b.
Proof.
  induction a as [|c a IH]; intros b; [reflexivity|].
  unfold patternFree in *. simpl. rewrite IH, andb_assoc. reflexivity.
Qed.

Lemma encodeChar_patternFree : forall c, patternFree (encodeChar c) = true.
Proof. intros [[] [] [] [] [] [] [] []]; reflexivity. Qed.

Lemma encodeURIComponent_patternFree : forall s, patternFree (encodeURIComponent s) = true.
Proof.
  induction s as [|c s IH]; [reflexivity|].
  rewrite encodeURIComponent_cons, patternFree_app, encodeChar_patternFree, IH. reflexivity.
Qed.

Lemma encodeURIComponent_notAmp : forall s,
  Regex.span Regex.notAmp (encodeURIComponent s) = (encodeURIComponent s, "").
Proof.
  intros s. generalize (encodeURIComponent_patternFree s).
  generalize (encodeURIComponent s). clear s.
  induction s as [|c s IH]; [reflexivity|].
  unfold patternFree. simpl. intros H. apply andb_prop in H as [Hc Hs].
  assert (Hn : Regex.notAmp c = true).
  { unfold Regex.notAmp. unfold patternChar in Hc.
    destruct (Ascii.eqb c "&"); [|reflexivity]. rewrite !orb_true_r in Hc. discriminate. }
  rewrite Hn, IH; [reflexivity|exact Hs].
Qed.

Lemma prefix_in : forall l s c,
  String.prefix l s = true -> In c (list_ascii_of_string l) -> In c (list_ascii_of_string s).
Proof.
  induction l as [|x l IH]; intros s c H Hc; [destruct Hc|].
  destruct s as [|y s]; [discriminate|]. simpl in H.
  destruct (ascii_dec x y) as [<-|]; [|discriminate].
  destruct Hc as [<-|Hc]; [left; reflexivity|right; exact (IH s c H Hc)].
Qed.

Lemma lit_pattern : forall l s r c,
  Regex.lit l s = Some r -> In c (list_ascii_of_string l) -> patternChar c = true ->
  exists d, In d (list_ascii_of_string s) /\ patternChar d = true.
Proof.
  intros l s r c H Hc Hp. unfold Regex.lit in H.
  destruct (String.prefix l s) eqn:E; [|discriminate].
  exists c. split; [exact (prefix_in l s c E Hc)|exact Hp].
Qed.

Lemma qa_pattern : forall s r, Regex.qa s = Some r ->
  exists d, In d (list_ascii_of_string s) /\ patternChar d = true.
Proof.
  intros [|c s] r H; [discriminate|]. simpl in H. exists c. split; [left; reflexivity|].
  unfold patternChar. destruct (Ascii.eqb c "?"), (Ascii.eqb c "&"); try discriminate;
    rewrite ?orb_true_r; reflexivity.
Qed.

Lemma search_patternFree : forall {A} (f : string -> option A),
  (forall s a, f s = Some a -> exists d, In d (list_ascii_of_string s) /\ patternChar d = true) ->
  forall s, patternFree s = true -> Regex.search f s = None.
Proof.
  intros A f Hf s. induction s as [|c s IH]; intros Hs; simpl.
  - destruct (f "") as [a|] eqn:E; [|reflexivity].
    destruct (Hf _ _ E) as (d & [] & _).
  - unfold patternFree in Hs. simpl in Hs. apply andb_prop in Hs as [Hc Hs].
    destruct (f (String c s)) as [a|] eqn:E; [|apply IH, Hs].
    destruct (Hf _ _ E) as (d & Hd & Hp). exfalso. simpl in Hd. destruct Hd as [<-|Hd].
    + rewrite Hp in Hc. discriminate.
    + apply forallb_forall with (x := d) in Hs; [|exact Hd]. rewrite Hp in Hs. discriminate.
Qed.

Ltac bind_step H :=
  unfold Regex.bind in H;
  lazymatch type of H with
  | context [match ?o with Some _ => _ | None => _ end] =>
      let E := fresh "E" in destruct o eqn:E; [|discriminate H]
  end.

Lemma lit_at_pattern : forall s r, Regex.lit "@" s = Some r ->
  exists d, In d (list_ascii_of_string s) /\ patternChar d = true.
Proof. intros s r H. apply (lit_pattern _ _ _ "@" H); [left|]; reflexivity. Qed.

Lemma regex_patterns :
  (forall s a, Regex.atCoords s = Some a -> exists d, In d (list_ascii_of_string s) /\ patternChar d = true) /\
  (forall s a, Regex.qNumeric s = Some a -> exists d, In d (list_ascii_of_string s) /\ patternChar d = true) /\
  (forall s a, Regex.llCoords s = Some a -> exists d, In d (list_ascii_of_string s) /\ patternChar d = true) /\
  (forall s a, Regex.centerCoords s = Some a -> exists d, In d (list_ascii_of_string s) /\ patternChar d = true) /\
  (forall s a, Regex.cidParam s = Some a -> exists d, In d (list_ascii_of_string s) /\ patternChar d = true) /\
  (forall s a, Regex.placeIdParam s = Some a -> exists d, In d (list_ascii_of_string s) /\ patternChar d = true) /\
  (forall s a, Regex.queryParam s = Some a -> exists d, In d (list_ascii_of_string s) /\ patternChar d = true) /\
  (forall s a, Regex.placePath s = Some a -> exists d, In d (list_ascii_of_string s) /\ patternChar d = true).
Proof.
  repeat split; intros s a H.
  - unfold Regex.atCoords in H. bind_step H. exact (lit_at_pattern _ _ E).
  - unfold Regex.qNumeric in H. bind_step H. exact (qa_pattern _ _ E).
  - unfold Regex.llCoords in H. bind_step H. exact (qa_pattern _ _ E).
  - unfold Regex.centerCoords in H. bind_step H.
    apply (lit_pattern _ _ _ "=" E); [simpl; tauto|reflexivity].
  - unfold Regex.cidParam in H. bind_step H. exact (qa_pattern _ _ E).
  - unfold Regex.placeIdParam in H. bind_step H.
    apply (lit_pattern _ _ _ "=" E); [simpl; tauto|reflexivity].
  - unfold Regex.queryParam in H. bind_step H. exact (qa_pattern _ _ E).
  - unfold Regex.placePath in H. bind_step H.
    apply (lit_pattern _ _ _ "/" E); [left|]; reflexivity.
Qed.

Lemma search_skip : forall {A} (f : string -> option A) c s,
  f (String c s) = None -> Regex.search f (String c s) = Regex.search f s.
Proof. intros A f c s H. simpl. rewrite H. reflexivity. Qed.

Ltac skip_prefix :=
  unfold generateNeighborhoodMapsUrl, mapsSearchPrefix; cbn [append];
  repeat (rewrite search_skip; [|reflexivity]).

Lemma search_neighborhoodUrl : forall location,
  let e := encodeURIComponent location in
  let url := generateNeighborhoodMapsUrl location in
  Regex.search Regex.atCoords url = None /\ Regex.search Regex.qNumeric url = None /\
  Regex.search Regex.llCoords url = None /\ Regex.search Regex.centerCoords url = None /\
  Regex.search Regex.cidParam url = None /\ Regex.search Regex.placeIdParam url = None /\
  Regex.search Regex.placePath url = None.
Proof.
  intros location e url. subst e url.
  pose proof (encodeURIComponent_patternFree location) as Hp.
  destruct regex_patterns as (P1 & P2 & P3 & P4 & P5 & P6 & P7 & P8).
  repeat split; skip_prefix; apply search_patternFree; assumption.
Qed.

Lemma search_hit : forall {A} (f : string -> option A) s a,
  f s = Some a -> Regex.search f s = Some a.
Proof. intros A f [|c s] a H; simpl; rewrite H; reflexivity. Qed.

Lemma encodeURIComponent_nonempty : forall s, s <> "" -> encodeURIComponent s <> "".
Proof. intros [|c s] H; [congruence|]. destruct c as [[] [] [] [] [] [] [] []]; discriminate. Qed.

Lemma queryParam_neighborhoodUrl : forall location, location <> "" ->
  Regex.search Regex.queryParam (generateNeighborhoodMapsUrl location)
  = Some (encodeURIComponent location).
Proof.
  intros location Hl. skip_prefix. apply search_hit.
  unfold Regex.queryParam, Regex.bind, Regex.qa, Regex.lit. simpl.
  assert (Hpre : forall t, String.prefix "" t = true) by (intros []; reflexivity).
  rewrite Hpre, substring_0_ge by lia.
  unfold Regex.plus. rewrite encodeURIComponent_notAmp.
  destruct (encodeURIComponent location) eqn:E; [|reflexivity].
  exfalso. exact (encodeURIComponent_nonempty location Hl E).
Qed.

(** The search link that [findNeighborhoodUri] generates for a non-empty
    area name is read back by [extractCoordinatesFromUrl] as a request to
    geocode exactly that name. *)
Theorem neighborhood_link_read_back : forall location, location <> "" ->
  extractCoordinatesFromUrl decodeURIComponentL1 (generateNeighborhoodMapsUrl location) =
  {| CoordinateResult.coordinates := None; CoordinateResult.needsGeocoding := true;
     CoordinateResult.geocodingQuery := Some location;
     CoordinateResult.placeId := None; CoordinateResult.cid := None |}.
Proof.
  intros location Hl. unfold extractCoordinatesFromUrl.
  destruct (search_neighborhoodUrl location) as (S1 & S2 & S3 & S4 & S5 & S6 & S8).
  rewrite S1, S2, S3, S4, S5, S6, (queryParam_neighborhoodUrl location Hl).
  rewrite decode_encodeURIComponent. reflexivity.
Qed.

(* ------------------------------------------------------------------ *)
(** ** The normal form of [normalizeString] *)

Lemma lowerWord_char : forall c, lowerWord c = true ->
  JS.is_space c = false /\ Ascii.eqb c " " = false /\ JS.is_word c = true /\ JS.lower c = c.
Proof.
  intros [[] [] [] [] [] [] [] []]; vm_compute;
    first [intros H; discriminate H | intros _; repeat split].
Qed.

Lemma lowerWord_lower : forall c, JS.is_word (JS.lower c) = true -> lowerWord (JS.lower c) = true.
Proof.
  intros [[] [] [] [] [] [] [] []]; vm_compute;
    first [intros H; discriminate H | intros _; reflexivity].
Qed.

Lemma space_char : JS.is_space " " = true /\ JS.is_word " " = false /\ JS.lower " " = " "%char.
Proof. vm_compute. repeat split. Qed.

Fixpoint okChars (s : string) : bool :=
  match s with
  | EmptyString => true
  | String c s' => (lowerWord c || JS.is_space c) && okChars s'
  end.

Lemma okChars_removeSpecial : forall s, okChars (removeSpecial (JS.toLowerCase s)) = true.
Proof.
  induction s as [|c s IH]; [reflexivity|]. cbn [JS.toLowerCase removeSpecial].
  destruct (JS.is_word (JS.lower c)) eqn:Hw; cbn [orb].
  - cbn [okChars]. rewrite (lowerWord_lower c Hw), IH. reflexivity.
  - destruct (JS.is_space (JS.lower c)) eqn:Hs; [|exact IH].
    cbn [okChars]. rewrite Hs, IH, orb_true_r. reflexivity.
Qed.

Lemma trimStart_collapseWs : forall t b, trimStart (collapseWs b t) = collapseWs true t.
Proof.
  induction t as [|c t IH]; intros b; [reflexivity|]. cbn [collapseWs].
  destruct (JS.is_space c) eqn:Hs.
  - destruct b; [apply IH|]. cbn [trimStart]. rewrite (proj1 space_char). apply IH.
  - cbn [trimStart]. rewrite Hs. reflexivity.
Qed.

(** After a word character, allowing one trailing space. *)
Fixpoint afterWordT (s : string) : bool :=
  match s with
  | EmptyString => true
  | String c s' =>
      if Ascii.eqb c " " then
        match s' with
        | String d s'' => lowerWord d && afterWordT s''
        | EmptyString => true
        end
      else lowerWord c && afterWordT s'
  end.

Lemma collapseWs_shape : forall t, okChars t = true ->
  afterWordT (collapseWs false t) = true /\
  (collapseWs true t = "" \/ exists c r, collapseWs true t = String c r /\
     lowerWord c = true /\ afterWordT r = true).
Proof.
  induction t as [|c t IH]; intros Hok; [split; [reflexivity | left; reflexivity]|].
  cbn [okChars] in Hok. apply andb_prop in Hok as [Hc Ht].
  destruct (IH Ht) as [IH1 IH2]. cbn [collapseWs].
  destruct (JS.is_space c) eqn:Hs.
  - split; [|exact IH2]. cbn [afterWordT]. rewrite Ascii.eqb_refl.
    destruct IH2 as [-> | (d & r & -> & Hd & Hr)]; [reflexivity|]. rewrite Hd, Hr. reflexivity.
  - rewrite orb_false_r in Hc. destruct (lowerWord_char c Hc) as (_ & Hsp & _).
    split.
    + cbn [afterWordT]. rewrite Hsp, Hc, IH1. reflexivity.
    + right. exists c, (collapseWs false t). auto.
Qed.

Lemma afterWord_space_shift : forall d s,
  Ascii.eqb d " " = false ->
  afterWord (String " " (String d s)) = afterWord (String d s) /\
  afterWordT (String " " (String d s)) = afterWordT (String d s).
Proof. intros d s Hd. cbn [afterWord afterWordT]. rewrite Hd. split; reflexivity. Qed.

Lemma lowerWord_not_space : forall c, lowerWord c = true -> Ascii.eqb c " " = false.
Proof. intros c H. apply (lowerWord_char c H). Qed.

Lemma afterWordT_split : forall r, afterWordT r = true ->
  afterWord r = true \/ exists r', r = (r' ++ " ")%string /\ afterWord r' = true.
Proof.
  induction r as [|c r IH]; intros H; [left; reflexivity|].
  destruct (Ascii.eqb c " ") eqn:Ec.
  - apply Ascii.eqb_eq in Ec. subst c. destruct r as [|d r'].
    + right. exists "". split; reflexivity.
    + cbn [afterWordT] in H. rewrite Ascii.eqb_refl in H.
      apply andb_prop in H as [Hd Hr'].
      pose proof (lowerWord_not_space d Hd) as Hds.
      destruct (afterWord_space_shift d r' Hds) as [A1 A2].
      assert (Ht : afterWordT (String d r') = true) by (cbn [afterWordT]; rewrite Hds, Hd; exact Hr').
      destruct (IH Ht) as [Hw | (r'' & Er & Hw)].
      * left. rewrite A1. exact Hw.
      * right. destruct r'' as [|e r3].
        { cbn in Er. injection Er as Ed _. subst d. discriminate Hds. }
        exists (String " " (String e r3)). split; [rewrite Er; reflexivity|].
        cbn in Er. injection Er as Ed _. subst e.
        rewrite (proj1 (afterWord_space_shift d r3 Hds)). exact Hw.
  - cbn [afterWordT] in H. rewrite Ec in H. apply andb_prop in H as [Hc Hr].
    destruct (IH Hr) as [Hw | (r' & Er & Hw)].
    + left. cbn [afterWord]. rewrite Ec, Hc, Hw. reflexivity.
    + right. exists (String c r'). split; [rewrite Er; reflexivity|].
      cbn [afterWord]. rewrite Ec, Hc, Hw. reflexivity.
Qed.

Lemma list_ascii_of_string_app : forall s t,
  list_ascii_of_string (s ++ t) = (list_ascii_of_string s ++ list_ascii_of_string t)%list.
Proof. induction s as [|c s IH]; intros t; [reflexivity|]. cbn. rewrite IH. reflexivity. Qed.

Lemma trimEnd_snoc_space : forall s, trimEnd (s ++ " ") = trimEnd s.
Proof.
  intros s. unfold trimEnd. rewrite list_ascii_of_string_app. cbn [list_ascii_of_string].
  rewrite rev_unit. cbn [string_of_list_ascii trimStart].
  rewrite (proj1 space_char). reflexivity.
Qed.

Definition endsNonSpace (s : string) : bool :=
  match rev (list_ascii_of_string s) with
  | [] => true
  | c :: _ => negb (JS.is_space c)
  end.

Lemma trimEnd_id : forall s, endsNonSpace s = true -> trimEnd s = s.
Proof.
  intros s H. unfold trimEnd, endsNonSpace in *.
  assert (E : trimStart (string_of_list_ascii (rev (list_ascii_of_string s)))
              = string_of_list_ascii (rev (list_ascii_of_string s))).
  { destruct (rev (list_ascii_of_string s)) as [|c l]; [reflexivity|].
    cbn [string_of_list_ascii trimStart]. apply negb_true_iff in H. rewrite H. reflexivity. }
  rewrite E, list_ascii_of_string_of_list_ascii, rev_involutive.
  apply string_of_list_ascii_of_string.
Qed.

Lemma endsNonSpace_shift : forall a b r,
  endsNonSpace (String a (String b r)) = endsNonSpace (String b r).
Proof.
  intros a b r. unfold endsNonSpace. cbn [list_ascii_of_string rev].
  destruct (rev (list_ascii_of_string r)); reflexivity.
Qed.

Lemma endsNonSpace_word : forall r c, lowerWord c = true -> afterWord r = true ->
  endsNonSpace (String c r) = true.
Proof.
  induction r as [|d r IH]; intros c Hc Hr.
  - unfold endsNonSpace. cbn. rewrite (proj1 (lowerWord_char c Hc)). reflexivity.
  - rewrite endsNonSpace_shift. cbn [afterWord] in Hr.
    destruct (Ascii.eqb d " ") eqn:Ed.
    + destruct r as [|e r']; [discriminate Hr|]. apply andb_prop in Hr as [He Hr'].
      rewrite endsNonSpace_shift, <- (endsNonSpace_shift e e r').
      apply IH; [exact He|]. cbn [afterWord].
      rewrite (lowerWord_not_space e He), He. exact Hr'.
    + apply andb_prop in Hr as [Hd Hr']. exact (IH d Hd Hr').
Qed.

Lemma collapseWs_nonspace_head : forall e x, JS.is_space e = false ->
  collapseWs true (String e x) = collapseWs false (String e x).
Proof. intros e x H. cbn [collapseWs]. rewrite H. reflexivity. Qed.

Lemma afterWord_fixed : forall r, afterWord r = true ->
  JS.toLowerCase r = r /\ removeSpecial r = r /\ collapseWs false r = r.
Proof.
  induction r as [|d r IH]; intros H; [repeat split|].
  cbn [afterWord] in H. destruct (Ascii.eqb d " ") eqn:Ed.
  - apply Ascii.eqb_eq in Ed. subst d.
    destruct r as [|e r']; [discriminate H|]. apply andb_prop in H as [He Hr'].
    destruct (lowerWord_char e He) as (Hes & Hee & _).
    assert (Hr : afterWord (String e r') = true) by (cbn [afterWord]; rewrite Hee, He; exact Hr').
    destruct (IH Hr) as (I1 & I2 & I3). destruct space_char as (S1 & S2 & S3).
    cbn [JS.toLowerCase removeSpecial collapseWs] in *.
    rewrite S1, S2, S3. cbn [orb]. rewrite Hes in *.
    rewrite I1, I2, I3. repeat split.
  - apply andb_prop in H as [Hd Hr]. destruct (IH Hr) as (I1 & I2 & I3).
    destruct (lowerWord_char d Hd) as (Hds & _ & Hdw & Hdl).
    cbn [JS.toLowerCase removeSpecial collapseWs].
    rewrite Hdl, Hdw, Hds, I1, I2, I3. repeat split.
Qed.

Lemma normal_fixed : forall n, isNormal n = true -> normalizeString n = n.
Proof.
  intros [|c r] H; [reflexivity|]. cbn [isNormal] in H. apply andb_prop in H as [Hc Hr].
  destruct (lowerWord_char c Hc) as (Hcs & Hce & _).
  assert (Hw : afterWord (String c r) = true) by (cbn [afterWord]; rewrite Hce, Hc; exact Hr).
  destruct (afterWord_fixed _ Hw) as (I1 & I2 & I3).
  unfold normalizeString. rewrite I1, I2, I3. unfold trim.
  cbn [trimStart]. rewrite Hcs. apply trimEnd_id, endsNonSpace_word; assumption.
Qed.

Lemma normalizeString_isNormal : forall s, isNormal (normalizeString s) = true.
Proof.
  intros s. unfold normalizeString, trim. rewrite trimStart_collapseWs.
  destruct (collapseWs_shape _ (okChars_removeSpecial s)) as [_ [-> | (c & r & -> & Hc & Hr)]];
    [reflexivity|].
  destruct (afterWordT_split r Hr) as [Hw | (r' & -> & Hw)].
  - rewrite trimEnd_id by (apply endsNonSpace_word; assumption). cbn [isNormal].
    rewrite Hc, Hw. reflexivity.
  - change (String c (r' ++ " ")) with (String c r' ++ " ").
    rewrite trimEnd_snoc_space, trimEnd_id by (apply endsNonSpace_word; assumption).
    cbn [isNormal]. rewrite Hc, Hw. reflexivity.
Qed.

(** [normalizeString] always returns lower-case word characters in words
    separated by single spaces, with no space at either end; such a string
    is returned unchanged, so normalizing twice is normalizing once. *)
Theorem normalizeString_normal_form : forall s,
  isNormal (normalizeString s) = true /\
  normalizeString (normalizeString s) = normalizeString s /\
  (isNormal s = true -> normalizeString s = s).
Proof.
  intros s. split; [apply normalizeString_isNormal|]. split.
  - apply normal_fixed, normalizeString_isNormal.
  - apply normal_fixed.
Qed.

(* ------------------------------------------------------------------ *)
(** ** Instances of the properties above *)

Lemma extractPlaceInfo_place_id_first_witness :
  extractPlaceInfo decodeURIComponentL1 true (fun _ => None) placeIdAndAtUrl None
    = ([], Some (PIPlaceId "ChIJabc")) /\
  extractCoordinatesFromUrl decodeURIComponentL1 placeIdAndAtUrl = direct (356 # 10, 1397 # 10).
Proof.
  destruct (extractPlaceInfo_place_id_first decodeURIComponentL1 true (fun _ => None)
              placeIdAndAtUrl None "ChIJabc" "ChIJabc") as [H1 H2];
    [unfold placeIdAndAtUrl; discriminate | vm_compute; reflexivity
    | vm_compute; reflexivity |].
  split; [exact H1 | apply H2; vm_compute; reflexivity].
Defined.

Lemma extractPlaceInfo_cid_geocodes_name_witness :
  fst (extractPlaceInfo decodeURIComponentL1 true (fun _ => None)
         "https://maps.google.com/?cid=123" (Some "Park Hyatt Tokyo"))
    = [ByAddress "Park Hyatt Tokyo"] /\
  fst (extractPlaceInfo decodeURIComponentL1 true (fun _ => None)
         "https://www.google.com/maps/place/Park+Hyatt/?cid=123" (Some ""))
    = [ByAddress "Park Hyatt"] /\
  extractPlaceInfo decodeURIComponentL1 true (fun _ => None)
    "https://www.google.com/maps/place/%E0%A4/?cid=123" (Some "") = ([], None) /\
  fst (extractPlaceInfo decodeURIComponentL1 true (fun _ => None)
         "https://www.google.com/maps/place/?cid=123" (Some ""))
    = [ByAddress "123"].
Proof.
  destruct (extractPlaceInfo_cid_geocodes_name decodeURIComponentL1 (fun _ => None)
              "https://maps.google.com/?cid=123" "123" "123" (Some "Park Hyatt Tokyo"))
    as (A & _); try discriminate; try (vm_compute; reflexivity).
  destruct (extractPlaceInfo_cid_geocodes_name decodeURIComponentL1 (fun _ => None)
              "https://www.google.com/maps/place/Park+Hyatt/?cid=123" "123" "123" (Some ""))
    as (_ & B); try discriminate; try (vm_compute; reflexivity).
  destruct (extractPlaceInfo_cid_geocodes_name decodeURIComponentL1 (fun _ => None)
              "https://www.google.com/maps/place/%E0%A4/?cid=123" "123" "123" (Some ""))
    as (_ & C); try discriminate; try (vm_compute; reflexivity).
  destruct (extractPlaceInfo_cid_geocodes_name decodeURIComponentL1 (fun _ => None)
              "https://www.google.com/maps/place/?cid=123" "123" "123" (Some ""))
    as (_ & D); try discriminate; try (vm_compute; reflexivity).
  split; [rewrite (A "Park Hyatt Tokyo" eq_refl); [reflexivity | discriminate]|].
  split; [rewrite (proj1 (B eq_refl) "Park+Hyatt" "Park Hyatt"); vm_compute; reflexivity|].
  split; [apply (proj1 (proj2 (C eq_refl)) "%E0%A4"); vm_compute; reflexivity|].
  rewrite (proj2 (proj2 (D eq_refl))); [reflexivity|]. right. vm_compute. reflexivity.
Defined.

Lemma findMatchingSource_blank_witness :
  findMatchingSource "  " [webChunk "" "https://a"; mapsChunk "Tokyo" "https://b"]
    = Some (mapsChunk "Tokyo" "https://b") /\
  findMatchingSource "Shibuya Crossing" [mapsChunk " " "https://c"; shibuyaCitation]
    = Some (mapsChunk " " "https://c").
Proof.
  split.
  - rewrite (proj1 (findMatchingSource_blank "  " [webChunk "" "https://a"; mapsChunk "Tokyo" "https://b"]));
      vm_compute; reflexivity.
  - apply (proj2 (findMatchingSource_blank "Shibuya Crossing" [mapsChunk " " "https://c"; shibuyaCitation])
             (mapsChunk " " "https://c")
             {| GroundingChunk.uri := "https://c"; GroundingChunk.title := " ";
                GroundingChunk.placeAnswerSources := None |} [shibuyaCitation]);
      [reflexivity | discriminate | vm_compute; reflexivity].
Defined.

Lemma generateInviteCode_valid_witness :
  validateInviteCode (generateInviteCode (fun _ => 1 # 2)) = true.
Proof.
  apply generateInviteCode_valid. intros _. unfold Qle, Qlt. simpl. lia.
Defined.

Lemma validateInviteCode_case_insensitive_witness :
  validateInviteCode "aBc123" = true.
Proof.
  assert (Ha : forall c, In c (list_ascii_of_string "aBc123") -> (JS.code c < 128)%nat).
  { intros c Hc. cbn in Hc.
    repeat (destruct Hc as [<-|Hc]; [apply Nat.ltb_lt; reflexivity|]). destruct Hc. }
  rewrite (proj2 (validateInviteCode_case_insensitive "aBc123" Ha)). vm_compute. reflexivity.
Defined.

Lemma validatePasscode_spec_witness :
  validatePasscode "123" =
  {| PasscodeValidation.valid := false;
     PasscodeValidation.error := Some "Passcode must be 4-6 characters long" |}.
Proof.
  apply (proj2 (validatePasscode_spec "123")). left. apply Nat.ltb_lt. reflexivity.
Defined.

Lemma aggregateMustDo_merge_witness :
  aggregateMustDo [memberPrefs None None None (Some [""]) None] "Base" = "Base" /\
  exists L, aggregateMustDo [memberPrefs None None None (Some ["Tsukiji"; "Ginza"]) None] "Ginza"
    = joinComma L /\ hd_error L = Some "Ginza".
Proof.
  split.
  - apply (proj1 (aggregateMustDo_merge [memberPrefs None None None (Some [""]) None] "Base")).
    intros p x [<-|[]] Hx. cbn in Hx. destruct Hx as [<-|[]]. reflexivity.
  - destruct (proj2 (aggregateMustDo_merge [memberPrefs None None None (Some ["Tsukiji"; "Ginza"]) None]
                       "Ginza")) as (L & E & _ & _ & Hd).
    + exists (memberPrefs None None None (Some ["Tsukiji"; "Ginza"]) None), "Tsukiji".
      split; [left; reflexivity|]. split; [left; reflexivity | discriminate].
    + exists L. split; [exact E | apply Hd; discriminate].
Defined.

Lemma aggregateVeto_merge_witness :
  aggregateVeto [memberPrefs None None None None (Some [""; ""])] "" = "" /\
  exists L, aggregateVeto [memberPrefs None None None None (Some ["Karaoke"])] "Clubs"
    = joinComma L /\ hd_error L = Some "Clubs".
Proof.
  split.
  - apply (proj1 (aggregateVeto_merge [memberPrefs None None None None (Some [""; ""])] "")).
    intros p x [<-|[]] Hx. cbn in Hx. destruct Hx as [<-|[<-|[]]]; reflexivity.
  - destruct (proj2 (aggregateVeto_merge [memberPrefs None None None None (Some ["Karaoke"])]
                       "Clubs")) as (L & E & _ & _ & Hd).
    + exists (memberPrefs None None None None (Some ["Karaoke"])), "Karaoke".
      split; [left; reflexivity|]. split; [left; reflexivity | discriminate].
    + exists L. split; [exact E | apply Hd; discriminate].
Defined.

Lemma aggregateGroupVibe_no_entries_witness :
  aggregateGroupVibe [memberPrefs (Some "") (Some [""]) None None None] "  Calm  " = "Calm".
Proof.
  rewrite (aggregateGroupVibe_no_entries [memberPrefs (Some "") (Some [""]) None None None] "  Calm  ").
  - vm_compute. reflexivity.
  - intros p [<-|[]]. cbn. split; [|split].
    + intros b Hb. injection Hb as <-. reflexivity.
    + intros x [<-|[]]. reflexivity.
    + intros x [].
Defined.

Lemma aggregateGroupVibe_redundant_member_witness :
  aggregateGroupVibe ([memberPrefs (Some "low") (Some ["food"]) None None None] ++
                      [memberPrefs None (Some ["food"; ""]) None None None])%list "Calm"
  = aggregateGroupVibe [memberPrefs (Some "low") (Some ["food"]) None None None] "Calm".
Proof.
  apply aggregateGroupVibe_redundant_member.
  - intros b Hb. discriminate Hb.
  - intros x [<-|[<-|[]]].
    + right. exists (memberPrefs (Some "low") (Some ["food"]) None None None).
      split; left; reflexivity.
    + left. reflexivity.
  - intros x [].
Defined.

Lemma removeUndefined_clean_witness :
  noUndefined (removeUndefined (JObj [("a", JUndefined); ("b", JArr [JNull; JUndefined]);
                                      ("t", JInst [])])) = true /\
  removeUndefined (JArr [JNull; JStr "x"]) = JArr [JNull; JStr "x"].
Proof.
  split.
  - apply (proj1 (removeUndefined_clean (JObj [("a", JUndefined); ("b", JArr [JNull; JUndefined]);
                                                ("t", JInst [])]))).
    discriminate.
  - apply (proj2 (proj2 (proj2 (removeUndefined_clean (JArr [JNull; JStr "x"])))));
      reflexivity.
Defined.

Lemma undefinedToNull_clean_witness :
  undefinedToNull (JObj [("a", JBool true)]) = JObj [("a", JBool true)].
Proof.
  apply (proj2 (proj2 (proj2 (undefinedToNull_clean (JObj [("a", JBool true)]))))); reflexivity.
Defined.

Lemma neighborhood_link_read_back_witness :
  extractCoordinatesFromUrl decodeURIComponentL1 (generateNeighborhoodMapsUrl "Shibuya, Tokyo") =
  {| CoordinateResult.coordinates := None; CoordinateResult.needsGeocoding := true;
     CoordinateResult.geocodingQuery := Some "Shibuya, Tokyo";
     CoordinateResult.placeId := None; CoordinateResult.cid := None |}.
Proof. apply neighborhood_link_read_back. discriminate. Defined.

Lemma normalizeString_normal_form_witness :
  normalizeString "park hyatt tokyo" = "park hyatt tokyo".
Proof.
  apply (proj2 (proj2 (normalizeString_normal_form "park hyatt tokyo"))). vm_compute. reflexivity.
Defined.
